(** * Lateral torque controller (selfdrive/controls/lib/latcontrol_torque.py)

    A shallow embedding of [LatControlTorque] and of the per-cycle
    control law [LatControlTorque.update], together with the properties
    of the written specification that concern it.

    Numbers.  Python floats are modelled by exact rationals ([Q]): every
    arithmetic operation is the exact one, rounding, infinities and NaN
    are not represented.  Equality of computed values is therefore
    stated with [==] ([Qeq]); Python integers (the two cycle counters)
    are modelled by [Z].

    Exceptions.  A Python exception is a value of [exn] returned on the
    left of a sum; it carries the source line that raises it.  A raised
    exception aborts the cycle (the partially updated object is not
    returned). *)

From Stdlib Require Import QArith Qabs ZArith Lqa Lia List String Bool.
Import ListNotations.

Local Open Scope Q_scope.

(** ** Rational helpers *)

Definition Qltb (a b : Q) : bool := negb (Qle_bool b a).

(** ** Exceptions *)

Inductive exn : Type :=
| ZeroDivisionError (lineno : nat)   (* float division by zero *)
| IndexError (lineno : nat)          (* list index out of range *)
| InvalidOperation (lineno : nat).   (* Decimal() of a missing or malformed text *)

Definition result (A : Type) : Type := (exn + A)%type.

Definition ret {A : Type} (a : A) : result A := inr a.
Definition raise {A : Type} (e : exn) : result A := inl e.
Definition bind {A B : Type} (m : result A) (k : A -> result B) : result B :=
  match m with
  | inl e => inl e
  | inr a => k a
  end.

Notation "x <- m ;; k" := (bind m (fun x => k))
  (at level 61, m at next level, right associativity).

(** Python's [a / b] on floats. *)
Definition fdiv (lineno : nat) (a b : Q) : result Q :=
  if Qeq_bool b 0 then raise (ZeroDivisionError lineno) else ret (a / b).

(** Python's [l[n]] on a list. *)
Definition index (lineno : nat) (l : list Q) (n : nat) : result Q :=
  match nth_error l n with
  | Some v => ret v
  | None => raise (IndexError lineno)
  end.

(** [Decimal(text)], the text already read as a number or not. *)
Definition decimal (lineno : nat) (o : option Q) : result Q :=
  match o with
  | Some v => ret v
  | None => raise (InvalidOperation lineno)
  end.

(** ** common.numpy_fast *)

(** Modelled from the spec: [interp] of common/numpy_fast.py is not part of
    the sources at hand.  The specification describes it as the linear
    interpolation of [x] over the breakpoints [xp] with values [fp],
    clamped at the ends (constant beyond the first and last breakpoint). *)
Fixpoint interp_from (x x0 f0 : Q) (xp fp : list Q) : Q :=
  match xp, fp with
  | x1 :: xp', f1 :: fp' =>
      if Qle_bool x x1
      then (x - x0) * (f1 - f0) / (x1 - x0) + f0
      else interp_from x x1 f1 xp' fp'
  | _, _ => f0
  end.

(** Modelled from the spec: [interp(x, xp, fp)]; the value at the first
    breakpoint up to it, then the segments of [interp_from]. *)
Definition interp (x : Q) (xp fp : list Q) : Q :=
  match xp, fp with
  | x0 :: xp', f0 :: fp' =>
      if Qle_bool x x0 then f0 else interp_from x x0 f0 xp' fp'
  | _, _ => 0
  end.

(** Modelled from the spec: the clamp used by the closed-loop controller
    ("Output = clamp(proportional + integral + feedforward, neg_limit,
    pos_limit)"). *)
Definition clip (x lo hi : Q) : Q :=
  if Qltb x lo then lo else if Qltb hi x then hi else x.

(** ** selfdrive.controls.lib.pid *)

Module PID.

(** Modelled from the spec: the state of the closed-loop controller
    (section 3, ControllerState, and section 4.1): the three gains, the
    saturation limits, and the last computed proportional, integral,
    derivative and feedforward terms; [i] is the integral accumulator. *)
Record t : Type := mk {
  k_p : Q;
  k_i : Q;
  k_f : Q;
  pos_limit : Q;
  neg_limit : Q;
  p : Q;
  i : Q;
  d : Q;
  f : Q
}.

(** Modelled from the spec: [PIDController(k_p, k_i, k_f=, pos_limit=,
    neg_limit=)].  A freshly constructed controller has a zero integral
    accumulator and no term history. *)
Definition PIDController (kp ki kf pos neg : Q) : t :=
  {| k_p := kp; k_i := ki; k_f := kf; pos_limit := pos; neg_limit := neg;
     p := 0; i := 0; d := 0; f := 0 |}.

(** Modelled from the spec: [reset()] zeroes the integral accumulator and
    clears the term history; gains and limits are kept. *)
Definition reset (c : t) : t :=
  {| k_p := k_p c; k_i := k_i c; k_f := k_f c;
     pos_limit := pos_limit c; neg_limit := neg_limit c;
     p := 0; i := 0; d := 0; f := 0 |}.

(** Modelled from the spec: [update(error, feedforward, speed,
    freeze_integrator)] of section 4.1.  [cycle_period] is the period of
    the control loop.  The proportional term is [k_p * error], the
    feedforward term [k_f * feedforward]; the integral accumulates
    [k_i * error * cycle_period] unless frozen, and is clamped so that
    the sum of the three terms stays within the limits; the output is
    the clamped sum.  The derivative term is always 0 here. *)
Definition update (cycle_period : Q) (c : t)
    (error feedforward speed : Q) (freeze_integrator : bool) : Q * t :=
  let p' := k_p c * error in
  let f' := k_f c * feedforward in
  let i' :=
    if freeze_integrator then i c
    else clip (i c + k_i c * error * cycle_period)
              (neg_limit c - p' - f') (pos_limit c - p' - f') in
  let control := clip (p' + i' + f') (neg_limit c) (pos_limit c) in
  (control,
   {| k_p := k_p c; k_i := k_i c; k_f := k_f c;
      pos_limit := pos_limit c; neg_limit := neg_limit c;
      p := p'; i := i'; d := 0; f := f' |}).

End PID.

(** ** Inputs of a control cycle *)

(** [CS]: the car state. *)
Record CarState : Type := {
  vEgo : Q;
  steeringAngleDeg : Q;
  steeringRateLimited : bool;
  steeringPressed : bool
}.

(** [CP.lateralTuning.torque]. *)
Module LateralTuning.

Record torque : Type := {
  kp : Q;
  ki : Q;
  kf : Q;
  useSteeringAngle : bool;
  friction : Q
}.

End LateralTuning.

Record CarParams : Type := {
  lateralTuning_torque : LateralTuning.torque
}.

(** [VM]: the vehicle model, an external collaborator; only its
    [calc_curvature(steer_angle, v_ego, roll)] is used. *)
Record VehicleModel : Type := {
  calc_curvature : Q -> Q -> Q -> Q
}.

(** [params]: the live parameters. *)
Record LiveParameters : Type := {
  angleOffsetDeg : Q;
  roll : Q
}.

(** [llk]: the localizer's estimate; the field is
    [llk.angularVelocityCalibrated.value], a list of floats. *)
Record LiveLocationKalman : Type := {
  angularVelocityCalibrated_value : list Q
}.

(** The persisted key-value store behind [Params()].  It is written by
    other processes, so its content is an input of every cycle.
    [get_decimal key] stands for [Decimal(params.get(key, encoding="utf8"))]:
    the number denoted by the stored text, [None] when the key is absent
    or its text is not a decimal number (Python raises there). *)
Record ParamsStore : Type := {
  get_bool : string -> bool;
  get_decimal : string -> option Q
}.

(** All arguments of [update], with the store content of the cycle. *)
Record Inputs : Type := {
  active : bool;
  CS : CarState;
  CP : CarParams;
  VM : VehicleModel;
  params : LiveParameters;
  last_actuators : unit;
  desired_curvature : Q;
  desired_curvature_rate : Q;
  llk : LiveLocationKalman;
  store : ParamsStore
}.

(** ** The diagnostic record, [log.ControlsState.LateralTorqueState] *)

Module LateralTorqueState.

Record t : Type := mk {
  active : bool;
  error : Q;
  p : Q;
  i : Q;
  d : Q;
  f : Q;
  output : Q;
  saturated : bool
}.

(** [new_message()]: every field at its default. *)
Definition new_message : t :=
  {| active := false; error := 0; p := 0; i := 0; d := 0; f := 0;
     output := 0; saturated := false |}.

Definition set_active (b : bool) (m : t) : t :=
  {| active := b; error := error m; p := p m; i := i m; d := d m; f := f m;
     output := output m; saturated := saturated m |}.

Definition set_error (e : Q) (m : t) : t :=
  {| active := active m; error := e; p := p m; i := i m; d := d m; f := f m;
     output := output m; saturated := saturated m |}.

End LateralTorqueState.

(** ** Names imported by the module *)

(** Module-level names of other files that the controller reads:
    [MIN_STEER_SPEED] (selfdrive.controls.lib.latcontrol),
    [ACCELERATION_DUE_TO_GRAVITY] (selfdrive.controls.lib.vehicle_model),
    [math.radians], and the period of the control loop used by the
    PID's integrator. *)
Class Externals : Type := {
  MIN_STEER_SPEED : Q;
  ACCELERATION_DUE_TO_GRAVITY : Q;
  radians : Q -> Q;
  cycle_period : Q
}.

(** ** selfdrive.controls.lib.latcontrol *)

(** Modelled from the spec: [LatControl._check_saturation] of
    selfdrive/controls/lib/latcontrol.py is not part of the sources at
    hand.  The specification gives the saturation flag of the diagnostic
    record as the tolerance test itself, so the helper hands its first
    argument back. *)
Definition _check_saturation (saturated : bool) (cs : CarState) : bool :=
  saturated.

(** ** selfdrive.controls.lib.latcontrol_torque *)

Definition FRICTION_THRESHOLD : Q := 0.2.

Module LatControlTorque.

(** The attributes of a [LatControlTorque] object.  The three
    [_torque_*] attributes exist only once [live_tune] has applied a
    tuning.  [get_steer_feedforward] and the handle [params] on the store
    are never used by [update] and are left out; the content of the store
    comes with the inputs of the cycle. *)
Record t : Type := mk {
  pid : PID.t;
  steer_max : Q;
  use_steering_angle : bool;
  friction : Q;
  mpc_frame : Z;
  custom_tune : bool;
  custom_tune_timer : Z;
  _torque_max_lat_accel : option Q;
  _torque_use_steering_angle : option bool;
  _torque_friction : option Q
}.

(** The value returned by [update]: [(-output_torque, 0.0, pid_log)]. *)
Definition output : Type := (Q * Q * LateralTorqueState.t)%type.

Definition torque_cmd (o : output) : Q := fst (fst o).
Definition angle_cmd (o : output) : Q := snd (fst o).
Definition pid_log (o : output) : LateralTorqueState.t := snd o.

Section WithExternals.

Context {E : Externals}.

(** [__init__(self, CP, CI)], lines 26-40. *)
Definition init (cp : CarParams) : t :=
  let tune := lateralTuning_torque cp in
  let pid0 := PID.PIDController (LateralTuning.kp tune) (LateralTuning.ki tune)
                                (LateralTuning.kf tune) 1.0 (-1.0) in
  let steer_max0 := 1.0 in
  {| pid := {| PID.k_p := PID.k_p pid0; PID.k_i := PID.k_i pid0;
               PID.k_f := PID.k_f pid0;
               PID.pos_limit := steer_max0; PID.neg_limit := - steer_max0;
               PID.p := PID.p pid0; PID.i := PID.i pid0;
               PID.d := PID.d pid0; PID.f := PID.f pid0 |};
     steer_max := steer_max0;
     use_steering_angle := LateralTuning.useSteeringAngle tune;
     friction := LateralTuning.friction tune;
     mpc_frame := 0%Z;
     custom_tune := false;
     custom_tune_timer := 0%Z;
     _torque_max_lat_accel := None;
     _torque_use_steering_angle := None;
     _torque_friction := None |}.

(** [reset(self)], lines 42-44. *)
Definition reset (self : t) : t :=
  {| pid := PID.reset (pid self);
     steer_max := steer_max self;
     use_steering_angle := use_steering_angle self;
     friction := friction self;
     mpc_frame := mpc_frame self;
     custom_tune := custom_tune self;
     custom_tune_timer := custom_tune_timer self;
     _torque_max_lat_accel := _torque_max_lat_accel self;
     _torque_use_steering_angle := _torque_use_steering_angle self;
     _torque_friction := _torque_friction self |}.

(** [live_tune(self, CP)], lines 46-56. *)
Definition live_tune (self : t) (st : ParamsStore) (cp : CarParams) : result t :=
  let frame := (mpc_frame self + 1)%Z in
  if (frame mod 300 =? 0)%Z then
    raw_accel <- decimal 49 (get_decimal st "TorqueMaxLatAccel") ;;
    let max_lat_accel := raw_accel * 0.1 in
    let use_angle := get_bool st "TorqueUseSteeringAngle" in
    raw_friction <- decimal 51 (get_decimal st "TorqueFriction") ;;
    let friction' := raw_friction * 0.01 in
    k_p <- fdiv 54 2.0 max_lat_accel ;;
    k_i <- fdiv 54 1.0 max_lat_accel ;;
    k_f <- fdiv 55 0.5 max_lat_accel ;;
    ret {| pid := PID.PIDController k_p k_i k_f 1.0 (-1.0);
           steer_max := steer_max self;
           use_steering_angle := use_angle;
           friction := friction';
           mpc_frame := 0%Z;
           custom_tune := custom_tune self;
           custom_tune_timer := custom_tune_timer self;
           _torque_max_lat_accel := Some max_lat_accel;
           _torque_use_steering_angle := Some use_angle;
           _torque_friction := Some friction' |}
  else
    ret {| pid := pid self;
           steer_max := steer_max self;
           use_steering_angle := use_steering_angle self;
           friction := friction self;
           mpc_frame := frame;
           custom_tune := custom_tune self;
           custom_tune_timer := custom_tune_timer self;
           _torque_max_lat_accel := _torque_max_lat_accel self;
           _torque_use_steering_angle := _torque_use_steering_angle self;
           _torque_friction := _torque_friction self |}.

(** Lines 59-62 of [update]: the poll of the "CustomLateralTune" toggle. *)
Definition poll_custom_tune (self : t) (st : ParamsStore) : t :=
  let timer := (custom_tune_timer self + 1)%Z in
  let reread := (100 <? timer)%Z in
  {| pid := pid self;
     steer_max := steer_max self;
     use_steering_angle := use_steering_angle self;
     friction := friction self;
     mpc_frame := mpc_frame self;
     custom_tune :=
       if reread then get_bool st "CustomLateralTune" else custom_tune self;
     custom_tune_timer := if reread then 0%Z else timer;
     _torque_max_lat_accel := _torque_max_lat_accel self;
     _torque_use_steering_angle := _torque_use_steering_angle self;
     _torque_friction := _torque_friction self |}.

(** Lines 59-64 of [update]: the poll, then [live_tune] when custom
    tuning is enabled. *)
Definition tuning_step (self : t) (inp : Inputs) : result t :=
  let self1 := poll_custom_tune self (store inp) in
  if custom_tune self1 then live_tune self1 (store inp) (CP inp) else ret self1.

(** Lines 72-77 of [update]: the curvature the car is driving. *)
Definition actual_curvature (self : t) (inp : Inputs) : result Q :=
  let cs := CS inp in
  if use_steering_angle self then
    ret (- calc_curvature (VM inp)
             (radians (steeringAngleDeg cs - angleOffsetDeg (params inp)))
             (vEgo cs) (roll (params inp)))
  else
    let actual_curvature_vm :=
      - calc_curvature (VM inp)
          (radians (steeringAngleDeg cs - angleOffsetDeg (params inp)))
          (vEgo cs) (roll (params inp)) in
    yaw_rate <- index 76 (angularVelocityCalibrated_value (llk inp)) 2 ;;
    actual_curvature_llk <- fdiv 76 yaw_rate (vEgo cs) ;;
    ret (interp (vEgo cs) [2.0; 5.0] [actual_curvature_vm; actual_curvature_llk]).

(** The activation test of line 68. *)
Definition inactive (inp : Inputs) : bool :=
  Qltb (vEgo (CS inp)) MIN_STEER_SPEED || negb (active inp).

(** [update(self, active, CS, CP, VM, params, last_actuators,
    desired_curvature, desired_curvature_rate, llk)], lines 58-107.
    Returns the triple of line 107 and the object after the cycle. *)
Definition update (self : t) (inp : Inputs) : result (output * t) :=
  self <- tuning_step self inp ;;
  let cs := CS inp in
  let pid_log := LateralTorqueState.new_message in
  if inactive inp then
    let output_torque := 0.0 in
    let pid_log := LateralTorqueState.set_active false pid_log in
    ret ((- output_torque, 0.0, pid_log), self)
  else
    actual_curvature <- actual_curvature self inp ;;
    let desired_lateral_accel := desired_curvature inp * vEgo cs ^ 2 in
    let desired_lateral_jerk := desired_curvature_rate inp * vEgo cs ^ 2 in
    let actual_lateral_accel := actual_curvature * vEgo cs ^ 2 in
    let low_speed_factor := interp (vEgo cs) [0; 15] [500; 0] in
    let setpoint := desired_lateral_accel + low_speed_factor * desired_curvature inp in
    let measurement := actual_lateral_accel + low_speed_factor * actual_curvature in
    let error := setpoint - measurement in
    let ff := desired_lateral_accel - roll (params inp) * ACCELERATION_DUE_TO_GRAVITY in
    let freeze_integrator :=
      steeringRateLimited cs || steeringPressed cs || Qltb (vEgo cs) 5 in
    let '(output_torque, pid') :=
      PID.update cycle_period (pid self) error ff (vEgo cs) freeze_integrator in
    let friction_compensation :=
      interp error [- FRICTION_THRESHOLD; FRICTION_THRESHOLD]
             [- friction self; friction self] in
    let output_torque := output_torque + friction_compensation in
    let pid_log :=
      {| LateralTorqueState.active := true;
         LateralTorqueState.error := error;
         LateralTorqueState.p := PID.p pid';
         LateralTorqueState.i := PID.i pid';
         LateralTorqueState.d := PID.d pid';
         LateralTorqueState.f := PID.f pid';
         LateralTorqueState.output := - output_torque;
         LateralTorqueState.saturated :=
           _check_saturation
             (Qltb (steer_max self - Qabs output_torque) 1e-3) cs |} in
    ret ((- output_torque, 0.0, pid_log),
         {| pid := pid';
            steer_max := steer_max self;
            use_steering_angle := use_steering_angle self;
            friction := friction self;
            mpc_frame := mpc_frame self;
            custom_tune := custom_tune self;
            custom_tune_timer := custom_tune_timer self;
            _torque_max_lat_accel := _torque_max_lat_accel self;
            _torque_use_steering_angle := _torque_use_steering_angle self;
            _torque_friction := _torque_friction self |}).

(** Successive cycles, one per element of [inps]; the first exception
    ends the run. *)
Fixpoint run (self : t) (inps : list Inputs) : result t :=
  match inps with
  | [] => ret self
  | inp :: inps' => r <- update self inp ;; run (snd r) inps'
  end.

(** The controllers a caller can hold: a freshly constructed one, and any
    obtained from such by completed cycles and resets. *)
Inductive reachable : t -> Prop :=
| reachable_init (cp : CarParams) : reachable (init cp)
| reachable_update (self self' : t) (inp : Inputs) (out : output) :
    reachable self -> update self inp = inr (out, self') -> reachable self'
| reachable_reset (self : t) : reachable self -> reachable (reset self).

(** The invariant of the controller: the saturation limits stay at 1 and -1, and the two counters stay in
    their ranges. *)
Definition wf (self : t) : Prop :=
  steer_max self == 1 /\
  PID.pos_limit (pid self) == 1 /\
  PID.neg_limit (pid self) == - (1) /\
  (0 <= mpc_frame self < 300)%Z /\
  (0 <= custom_tune_timer self <= 100)%Z.

(** Whether [live_tune] applies the stored tuning in the cycle that starts
    from [self]: custom tuning is enabled after the poll and the
    apply-counter reaches a multiple of 300. *)
Definition tune_applies (self : t) (inp : Inputs) : bool :=
  let self1 := poll_custom_tune self (store inp) in
  custom_tune self1 && ((mpc_frame self1 + 1) mod 300 =? 0)%Z.

(** The gains, limits and flags that make up the tuning of a controller. *)
Definition tuning (self : t) : Q * Q * Q * Q * Q * bool * Q :=
  (PID.k_p (pid self), PID.k_i (pid self), PID.k_f (pid self),
   PID.pos_limit (pid self), PID.neg_limit (pid self),
   use_steering_angle self, friction self).

End WithExternals.

End LatControlTorque.

(** [inp] with another desired curvature rate. *)
Definition set_desired_curvature_rate (r : Q) (inp : Inputs) : Inputs :=
  {| active := active inp; CS := CS inp; CP := CP inp; VM := VM inp;
     params := params inp; last_actuators := last_actuators inp;
     desired_curvature := desired_curvature inp;
     desired_curvature_rate := r;
     llk := llk inp; store := store inp |}.

(** ** The formulas of the specification *)

Module Spec.

Section WithExternals.

Context {E : Externals}.

(** Section 4.3: low_speed_factor, the interpolation of the speed over
    [0, 15] -> [500, 0]. *)
Definition low_speed_factor (speed : Q) : Q :=
  interp speed [0; 15] [500; 0].

(** Section 4.3: error = setpoint - measurement. *)
Definition error (desired_curvature actual_curvature speed : Q) : Q :=
  let setpoint :=
    desired_curvature * speed ^ 2 + low_speed_factor speed * desired_curvature in
  let measurement :=
    actual_curvature * speed ^ 2 + low_speed_factor speed * actual_curvature in
  setpoint - measurement.

(** Section 4.3: feedforward = desired_lateral_accel - roll * g. *)
Definition feedforward (desired_curvature speed roll : Q) : Q :=
  desired_curvature * speed ^ 2 - roll * ACCELERATION_DUE_TO_GRAVITY.

(** Section 4.3: freeze_integrator. *)
Definition freeze_integrator (cs : CarState) : bool :=
  steeringRateLimited cs || steeringPressed cs || Qltb (vEgo cs) 5.

(** Section 8: the friction bias, linear within the threshold and
    constant beyond it. *)
Definition friction_bias (friction_coeff error : Q) : Q :=
  if Qle_bool (Qabs error) 0.2 then friction_coeff * error / 0.2
  else if Qltb 0 error then friction_coeff
  else - friction_coeff.

(** Section 4.2: the model-derived curvature, negated. *)
Definition model_curvature (inp : Inputs) : Q :=
  - calc_curvature (VM inp)
      (radians (steeringAngleDeg (CS inp) - angleOffsetDeg (params inp)))
      (vEgo (CS inp)) (roll (params inp)).

End WithExternals.

End Spec.

(** ** Concrete cycles *)

Module Scenario.

(** Values of the imported names: a minimum steer speed of 0.3 m/s, g of
    9.81 m/s^2, a control loop at 100 Hz, and degrees to radians with
    355/113 for pi. *)
Definition externals : Externals :=
  {| MIN_STEER_SPEED := 0.3;
     ACCELERATION_DUE_TO_GRAVITY := 9.81;
     radians := fun deg => deg * (355 # 113) / 180;
     cycle_period := 0.01 |}.

(** A car tuned with kp = 1, ki = 0.1, kf = 1 and friction 0.1. *)
Definition cp : CarParams :=
  {| lateralTuning_torque :=
       {| LateralTuning.kp := 1; LateralTuning.ki := 0.1;
          LateralTuning.kf := 1; LateralTuning.useSteeringAngle := true;
          LateralTuning.friction := 0.1 |} |}.

(** The same car with the curvature blended from the yaw rate. *)
Definition cp_blend : CarParams :=
  {| lateralTuning_torque :=
       {| LateralTuning.kp := 1; LateralTuning.ki := 0.1;
          LateralTuning.kf := 1; LateralTuning.useSteeringAngle := false;
          LateralTuning.friction := 0.1 |} |}.

(** A vehicle model that reports the curvature [c] whatever the angle. *)
Definition vm (c : Q) : VehicleModel :=
  {| calc_curvature := fun _ _ _ => c |}.

(** A store with custom tuning switched on, "TorqueMaxLatAccel" = 25,
    "TorqueFriction" = 10 and "TorqueUseSteeringAngle" set. *)
Definition tuned_store : ParamsStore :=
  {| get_bool := fun _ => true;
     get_decimal := fun key =>
       if String.eqb key "TorqueMaxLatAccel" then Some 25
       else if String.eqb key "TorqueFriction" then Some 10
       else None |}.

(** A cycle at speed [v] asking for the curvature [dc] while the model
    reports the curvature [c] (so [calc_curvature] returns [- c]). *)
Definition cycle (act : bool) (v dc c : Q) : Inputs :=
  {| active := act;
     CS := {| vEgo := v; steeringAngleDeg := 0;
              steeringRateLimited := false; steeringPressed := false |};
     CP := cp;
     VM := vm (- c);
     params := {| angleOffsetDeg := 0; roll := 0 |};
     last_actuators := tt;
     desired_curvature := dc;
     desired_curvature_rate := 0;
     llk := {| angularVelocityCalibrated_value := [0; 0; 0] |};
     store := tuned_store |}.

(** Driving at 20 m/s on a straight line while a curvature of 0.01 is
    asked for: the error is 4 m/s^2. *)
Definition hard_left : Inputs := cycle true 20 0.01 0.

(** The same with the controller disengaged. *)
Definition disengaged : Inputs := cycle false 20 0.01 0.



(** Driving at 3.5 m/s, half way through the blend, the model reporting
    the curvature 0.02 and the gyroscope no yaw rate. *)
Definition slow_turn : Inputs := cycle true 3.5 0.01 0.02.

(** Driving at 20 m/s on a straight line while a curvature of 0.0005 is
    asked for: the error is 0.2 m/s^2 and nothing saturates. *)
Definition gentle_left : Inputs := cycle true 20 0.0005 0.

(** 398 disengaged cycles, then one engaged cycle that loads the
    integrator. *)
Definition warm_up : list Inputs := repeat disengaged 398 ++ [gentle_left].

End Scenario.

(** ** Inputs that differ in one argument *)

(** [inp] with another [CP]. *)
Definition set_CP (cp : CarParams) (inp : Inputs) : Inputs :=
  {| active := active inp; CS := CS inp; CP := cp; VM := VM inp;
     params := params inp; last_actuators := last_actuators inp;
     desired_curvature := desired_curvature inp;
     desired_curvature_rate := desired_curvature_rate inp;
     llk := llk inp; store := store inp |}.

(** [inp] with another [llk]. *)
Definition set_llk (l : LiveLocationKalman) (inp : Inputs) : Inputs :=
  {| active := active inp; CS := CS inp; CP := CP inp; VM := VM inp;
     params := params inp; last_actuators := last_actuators inp;
     desired_curvature := desired_curvature inp;
     desired_curvature_rate := desired_curvature_rate inp;
     llk := l; store := store inp |}.

(** [inp] with another content of the store. *)
Definition set_store (st : ParamsStore) (inp : Inputs) : Inputs :=
  {| active := active inp; CS := CS inp; CP := CP inp; VM := VM inp;
     params := params inp; last_actuators := last_actuators inp;
     desired_curvature := desired_curvature inp;
     desired_curvature_rate := desired_curvature_rate inp;
     llk := llk inp; store := st |}.

(** ** What a cycle will do, read off the controller before it *)

Module Behaviour.

Import LatControlTorque.

(** The value of [self.use_steering_angle] at line 72: the stored flag
    when [live_tune] applies in the cycle, the attribute otherwise. *)
Definition steering_angle_mode (self : t) (inp : Inputs) : bool :=
  if tune_applies self inp
  then get_bool (store inp) "TorqueUseSteeringAngle"
  else use_steering_angle self.

(** The store holds what [live_tune] needs: two decimal texts, the
    first of them not zero. *)
Definition store_valid (st : ParamsStore) : Prop :=
  exists accel fric,
    get_decimal st "TorqueMaxLatAccel" = Some accel /\
    get_decimal st "TorqueFriction" = Some fric /\
    ~ accel == 0.

(** The three [_torque_*] attributes are set together, and once set
    they are the tuning in force: the gains of the PID are 2.0, 1.0 and
    0.5 over [_torque_max_lat_accel], and [use_steering_angle] and
    [friction] are the two other attributes. *)
Definition tuning_consistent (self : t) : Prop :=
  match _torque_max_lat_accel self with
  | Some max_lat_accel =>
      ~ max_lat_accel == 0 /\
      PID.k_p (pid self) = 2.0 / max_lat_accel /\
      PID.k_i (pid self) = 1.0 / max_lat_accel /\
      PID.k_f (pid self) = 0.5 / max_lat_accel /\
      _torque_use_steering_angle self = Some (use_steering_angle self) /\
      _torque_friction self = Some (friction self)
  | None =>
      _torque_use_steering_angle self = None /\
      _torque_friction self = None
  end.

End Behaviour.

(** ** Concrete cycles at the edges *)

Module EdgeScenario.

Import Scenario.

(** The imported names of [Scenario.externals], but for a minimum steer
    speed of 0. *)
Definition externals_no_min : Externals :=
  {| MIN_STEER_SPEED := 0;
     ACCELERATION_DUE_TO_GRAVITY := 9.81;
     radians := fun deg => deg * (355 # 113) / 180;
     cycle_period := 0.01 |}.

(** A store with custom tuning switched on and no tuning value. *)
Definition empty_store : ParamsStore :=
  {| get_bool := fun _ => true; get_decimal := fun _ => None |}.

(** A store with custom tuning switched on and "TorqueMaxLatAccel" = 0. *)
Definition zero_accel_store : ParamsStore :=
  {| get_bool := fun _ => true;
     get_decimal := fun key =>
       if String.eqb key "TorqueMaxLatAccel" then Some 0
       else if String.eqb key "TorqueFriction" then Some 10
       else None |}.

(** A store with custom tuning switched off. *)
Definition plain_store : ParamsStore :=
  {| get_bool := fun _ => false; get_decimal := fun _ => None |}.

(** A localizer estimate with two components only. *)
Definition short_llk : LiveLocationKalman :=
  {| angularVelocityCalibrated_value := [0; 0] |}.

(** A localizer estimate with a yaw rate of 0.07 rad/s. *)
Definition turning_llk : LiveLocationKalman :=
  {| angularVelocityCalibrated_value := [0; 0; 0.07] |}.

(** An engaged cycle at standstill. *)
Definition standstill : Inputs := cycle true 0 0.01 0.

(** A controller one cycle before [live_tune] applies: custom tuning on,
    the apply-counter at 299. *)
Definition about_to_tune : LatControlTorque.t :=
  {| LatControlTorque.pid := PID.PIDController 1 0.1 1 1.0 (- 1.0);
     LatControlTorque.steer_max := 1.0;
     LatControlTorque.use_steering_angle := true;
     LatControlTorque.friction := 0.1;
     LatControlTorque.mpc_frame := 299%Z;
     LatControlTorque.custom_tune := true;
     LatControlTorque.custom_tune_timer := 96%Z;
     LatControlTorque._torque_max_lat_accel := None;
     LatControlTorque._torque_use_steering_angle := None;
     LatControlTorque._torque_friction := None |}.

End EdgeScenario.

(** * Properties *)

(** ** Comparisons on rationals *)

Lemma Qltb_true (a b : Q) : Qltb a b = true <-> a < b.
Proof.
  unfold Qltb. rewrite negb_true_iff, <- not_true_iff_false, Qle_bool_iff.
  split; [apply Qnot_le_lt | apply Qlt_not_le].
Qed.

Lemma Qltb_false (a b : Q) : Qltb a b = false <-> b <= a.
Proof.
  unfold Qltb. rewrite negb_false_iff. apply Qle_bool_iff.
Qed.

Lemma Qle_bool_false (a b : Q) : Qle_bool a b = false <-> b < a.
Proof.
  rewrite <- not_true_iff_false, Qle_bool_iff.
  split; [apply Qnot_le_lt | apply Qlt_not_le].
Qed.

Lemma Qeq_bool_false (a b : Q) : Qeq_bool a b = false <-> ~ a == b.
Proof.
  rewrite <- not_true_iff_false, Qeq_bool_iff. tauto.
Qed.

(** Case analysis on the boolean tests, leaving the order facts in the
    context. *)
Ltac case_Q :=
  match goal with
  | |- context [Qltb ?a ?b] =>
      let H := fresh "Hlt" in
      destruct (Qltb a b) eqn:H;
      [apply Qltb_true in H | apply Qltb_false in H]
  | |- context [Qle_bool ?a ?b] =>
      let H := fresh "Hle" in
      destruct (Qle_bool a b) eqn:H;
      [apply Qle_bool_iff in H | apply Qle_bool_false in H]
  end.

(** ** The clamp and the interpolation *)

Lemma clip_bounds (x lo hi : Q) : lo <= hi -> lo <= clip x lo hi <= hi.
Proof.
  intros Hlh. unfold clip. repeat case_Q; lra.
Qed.

Lemma interp2_unfold (x a b fa fb : Q) :
  interp x [a; b] [fa; fb] =
  if Qle_bool x a then fa
  else if Qle_bool x b then (x - a) * (fb - fa) / (b - a) + fa
  else fb.
Proof. reflexivity. Qed.

Lemma interp2_low (x a b fa fb : Q) :
  x <= a -> interp x [a; b] [fa; fb] == fa.
Proof.
  intros H. rewrite interp2_unfold.
  apply Qle_bool_iff in H. rewrite H. reflexivity.
Qed.

Lemma interp2_mid (x a b fa fb : Q) :
  a < b -> a <= x <= b ->
  interp x [a; b] [fa; fb] == fa + (x - a) / (b - a) * (fb - fa).
Proof.
  intros Hab [Hax Hxb]. rewrite interp2_unfold.
  case_Q.
  - assert (Hx : x == a) by lra. rewrite Hx. field. lra.
  - apply Qle_bool_iff in Hxb. rewrite Hxb. field. lra.
Qed.

Lemma interp2_high (x a b fa fb : Q) :
  a < b -> b <= x -> interp x [a; b] [fa; fb] == fb.
Proof.
  intros Hab Hbx. rewrite interp2_unfold.
  case_Q; [lra |]. case_Q; [| reflexivity].
  assert (Hx : x == b) by lra. rewrite Hx. field. lra.
Qed.

(** An interpolation between [- c] and [c] stays within [- |c|, |c|]. *)
Lemma interp2_symmetric_bound (x a c : Q) :
  0 < a -> Qabs (interp x [- a; a] [- c; c]) <= Qabs c.
Proof.
  intros Ha.
  destruct (Qlt_le_dec x (- a)) as [Hlo | Hlo].
  - rewrite interp2_low by lra. rewrite Qabs_opp. lra.
  - destruct (Qlt_le_dec a x) as [Hhi | Hhi].
    + rewrite interp2_high by lra. lra.
    + rewrite interp2_mid by lra.
      assert (Heq : - c + (x - - a) / (a - - a) * (c - - c) == c * (x / a))
        by (field; lra).
      rewrite Heq, Qabs_Qmult.
      assert (Hxa : Qabs (x / a) <= 1).
      { apply Qabs_Qle_condition. split.
        - apply Qle_shift_div_l; lra.
        - apply Qle_shift_div_r; lra. }
      pose proof (Qabs_nonneg c) as Hc.
      nra.
Qed.

(** ** The exception monad *)

Lemma bind_inr {A B : Type} (m : result A) (k : A -> result B) (b : B) :
  bind m k = inr b -> exists a, m = inr a /\ k a = inr b.
Proof.
  destruct m as [e | a]; simpl; intros H; [discriminate | eauto].
Qed.

Lemma fdiv_inr (lineno : nat) (a b q : Q) :
  fdiv lineno a b = inr q -> ~ b == 0 /\ q = a / b.
Proof.
  unfold fdiv. destruct (Qeq_bool b 0) eqn:Hb; [discriminate |].
  apply Qeq_bool_false in Hb. intros H. inversion H. auto.
Qed.

Lemma fdiv_nonzero (lineno : nat) (a b : Q) :
  ~ b == 0 -> fdiv lineno a b = inr (a / b).
Proof.
  intros Hb. unfold fdiv. apply Qeq_bool_false in Hb. rewrite Hb. reflexivity.
Qed.

Ltac invert_bind H :=
  let a := fresh "a" in
  let Ha := fresh "Ha" in
  apply bind_inr in H; destruct H as [a [Ha H]].

(** ** Invariants of the controller *)

Module Invariant.

Import LatControlTorque.

Section WithExternals.

Context {E : Externals}.

Lemma wf_init (cp : CarParams) : wf (init cp).
Proof.
  unfold wf, init; simpl. repeat split; try reflexivity; lia.
Qed.

Lemma wf_reset (self : t) : wf self -> wf (reset self).
Proof.
  unfold wf, reset; simpl. tauto.
Qed.

Lemma wf_poll (self : t) (st : ParamsStore) :
  wf self -> wf (poll_custom_tune self st).
Proof.
  unfold wf, poll_custom_tune; simpl.
  intros (Hs & Hp & Hn & Hf & Ht). repeat split; try assumption; try lia.
  - destruct (Z.ltb_spec 100 (custom_tune_timer self + 1)); lia.
  - destruct (Z.ltb_spec 100 (custom_tune_timer self + 1)); lia.
Qed.

Lemma wf_live_tune (self self' : t) (st : ParamsStore) (cp : CarParams) :
  wf self -> live_tune self st cp = inr self' -> wf self'.
Proof.
  unfold wf, live_tune.
  intros (Hs & Hp & Hn & Hf & Ht) H.
  destruct (Z.eqb_spec ((mpc_frame self + 1) mod 300) 0) as [Hm | Hm].
  - do 5 invert_bind H. inversion H; subst; clear H; simpl.
    repeat split; try assumption; try reflexivity; lia.
  - inversion H; subst; clear H; simpl.
    repeat split; try assumption; try lia.
    assert (mpc_frame self + 1 <> 300)%Z; [| lia].
    intros Heq. apply Hm. rewrite Heq. reflexivity.
Qed.

Lemma wf_tuning_step (self self' : t) (inp : Inputs) :
  wf self -> tuning_step self inp = inr self' -> wf self'.
Proof.
  intros Hwf H. unfold tuning_step in H.
  pose proof (wf_poll self (store inp) Hwf) as Hwf1.
  destruct (custom_tune (poll_custom_tune self (store inp))).
  - eapply wf_live_tune; eauto.
  - inversion H; subst. assumption.
Qed.

Lemma wf_update (self self' : t) (inp : Inputs) (out : output) :
  wf self -> update self inp = inr (out, self') -> wf self'.
Proof.
  intros Hwf H. unfold update in H.
  invert_bind H. apply (wf_tuning_step _ _ _ Hwf) in Ha.
  destruct (inactive inp).
  - inversion H; subst. assumption.
  - invert_bind H. inversion H; subst; clear H.
    unfold wf in *; simpl. assumption.
Qed.

Lemma reachable_wf (self : t) : reachable self -> wf self.
Proof.
  induction 1 as [cp | self self' inp out _ IH Hupd | self _ IH].
  - apply wf_init.
  - eapply wf_update; eauto.
  - apply wf_reset, IH.
Qed.

End WithExternals.

End Invariant.

(** ** The control cycle *)

Section Cycle.

Import LatControlTorque.

Context {E : Externals}.

Lemma pid_update_output_bounds (c : PID.t) (e ff v : Q) (fz : bool) :
  PID.neg_limit c <= PID.pos_limit c ->
  PID.neg_limit c <= fst (PID.update cycle_period c e ff v fz) <= PID.pos_limit c.
Proof.
  intros H. unfold PID.update; simpl. apply clip_bounds, H.
Qed.

Lemma pid_update_keeps_gains (c : PID.t) (e ff v : Q) (fz : bool) :
  let c' := snd (PID.update cycle_period c e ff v fz) in
  PID.k_p c' = PID.k_p c /\ PID.k_i c' = PID.k_i c /\ PID.k_f c' = PID.k_f c /\
  PID.pos_limit c' = PID.pos_limit c /\ PID.neg_limit c' = PID.neg_limit c.
Proof.
  unfold PID.update; simpl. repeat split.
Qed.

(** What a cycle returns in the Inactive state: the state left by the
    tuning step, a zero command and a blank record. *)
Lemma update_inactive_eq (self : t) (inp : Inputs) :
  inactive inp = true ->
  update self inp =
  (self1 <- tuning_step self inp ;;
   ret ((- 0.0, 0.0,
         LateralTorqueState.set_active false LateralTorqueState.new_message),
        self1)).
Proof.
  intros H. unfold update. rewrite H. reflexivity.
Qed.

(** What a cycle returns in the Active state, given the state [self1] left
    by the tuning step and the curvature [ac] found by the estimator. *)
Lemma update_active_eq (self self1 : t) (inp : Inputs) (ac : Q) :
  inactive inp = false ->
  tuning_step self inp = inr self1 ->
  actual_curvature self1 inp = inr ac ->
  let cs := CS inp in
  let error := Spec.error (desired_curvature inp) ac (vEgo cs) in
  let ff := Spec.feedforward (desired_curvature inp) (vEgo cs) (roll (params inp)) in
  let r := PID.update cycle_period (pid self1) error ff (vEgo cs)
             (Spec.freeze_integrator cs) in
  let output_torque :=
    fst r + interp error [- FRICTION_THRESHOLD; FRICTION_THRESHOLD]
                   [- friction self1; friction self1] in
  update self inp =
  inr ((- output_torque, 0.0,
        {| LateralTorqueState.active := true;
           LateralTorqueState.error := error;
           LateralTorqueState.p := PID.p (snd r);
           LateralTorqueState.i := PID.i (snd r);
           LateralTorqueState.d := PID.d (snd r);
           LateralTorqueState.f := PID.f (snd r);
           LateralTorqueState.output := - output_torque;
           LateralTorqueState.saturated :=
             Qltb (steer_max self1 - Qabs output_torque) 1e-3 |}),
       {| pid := snd r;
          steer_max := steer_max self1;
          use_steering_angle := use_steering_angle self1;
          friction := friction self1;
          mpc_frame := mpc_frame self1;
          custom_tune := custom_tune self1;
          custom_tune_timer := custom_tune_timer self1;
          _torque_max_lat_accel := _torque_max_lat_accel self1;
          _torque_use_steering_angle := _torque_use_steering_angle self1;
          _torque_friction := _torque_friction self1 |}).
Proof.
  intros Hsel Htune Hac. unfold update.
  rewrite Htune. simpl. rewrite Hsel, Hac. reflexivity.
Qed.

(** In the Active state a completed cycle went through the tuning step
    and the estimator. *)
Lemma update_active_inv (self self' : t) (inp : Inputs) (out : output) :
  inactive inp = false ->
  update self inp = inr (out, self') ->
  exists self1 ac,
    tuning_step self inp = inr self1 /\ actual_curvature self1 inp = inr ac.
Proof.
  intros Hsel H. unfold update in H.
  invert_bind H. rewrite Hsel in H. invert_bind H. eauto.
Qed.

(** C1, as amended.  In every completed cycle of a controller the torque
    command is 0 in the Inactive state; in the Active state it is the
    negated sum of the output of the PID's update, which lies within
    [-1, 1], and of the friction compensation of line 95, of magnitude
    at most |friction|.  Hence it lies within
    [-1 - |friction|, 1 + |friction|].  (The compensation is added after
    the clamp of the PID, and the sum is not clamped again.) *)
Theorem update_torque_within_friction_margin
    (self self' : t) (inp : Inputs) (out : output) :
  reachable self ->
  update self inp = inr (out, self') ->
  exists self1,
    tuning_step self inp = inr self1 /\
    friction self' = friction self1 /\
    (inactive inp = true -> torque_cmd out == 0) /\
    (inactive inp = false ->
     exists curvature,
       actual_curvature self1 inp = inr curvature /\
       let speed := vEgo (CS inp) in
       let error := Spec.error (desired_curvature inp) curvature speed in
       let feedforward :=
         Spec.feedforward (desired_curvature inp) speed (roll (params inp)) in
       let pid_output :=
         fst (PID.update cycle_period (pid self1) error feedforward speed
                (Spec.freeze_integrator (CS inp))) in
       let friction_compensation :=
         interp error [- FRICTION_THRESHOLD; FRICTION_THRESHOLD]
                [- friction self1; friction self1] in
       torque_cmd out = - (pid_output + friction_compensation) /\
       - (1) <= pid_output <= 1 /\
       Qabs friction_compensation <= Qabs (friction self1)) /\
    - (1) - Qabs (friction self') <= torque_cmd out
      <= 1 + Qabs (friction self').
Proof.
  intros Hreach H. destruct (inactive inp) eqn:Hsel.
  - rewrite update_inactive_eq in H by assumption.
    invert_bind H. injection H as <- <-.
    exists a. split; [exact Ha |]. split; [reflexivity |].
    split; [intros _; reflexivity |].
    split; [intros Hf; discriminate Hf |].
    cbn [torque_cmd fst]. pose proof (Qabs_nonneg (friction a)) as Hnn.
    set (fr := Qabs (friction a)) in *. clearbody fr. lra.
  - destruct (update_active_inv _ _ _ _ Hsel H) as (self1 & ac & Ht & Hac).
    assert (Hwf : wf self1).
    { eapply Invariant.wf_tuning_step; [| exact Ht].
      apply Invariant.reachable_wf, Hreach. }
    destruct Hwf as (_ & Hp & Hn & _).
    pose proof (pid_update_output_bounds (pid self1)
                  (Spec.error (desired_curvature inp) ac (vEgo (CS inp)))
                  (Spec.feedforward (desired_curvature inp) (vEgo (CS inp))
                     (roll (params inp)))
                  (vEgo (CS inp)) (Spec.freeze_integrator (CS inp))) as Hpo.
    rewrite Hp, Hn in Hpo. assert (Hlim : - (1) <= 1) by lra.
    specialize (Hpo Hlim).
    pose proof (interp2_symmetric_bound
                  (Spec.error (desired_curvature inp) ac (vEgo (CS inp)))
                  FRICTION_THRESHOLD (friction self1) eq_refl) as Hb.
    assert (Hint :
              - (1) - Qabs (friction self1)
              <= - (fst (PID.update cycle_period (pid self1)
                           (Spec.error (desired_curvature inp) ac (vEgo (CS inp)))
                           (Spec.feedforward (desired_curvature inp)
                              (vEgo (CS inp)) (roll (params inp)))
                           (vEgo (CS inp)) (Spec.freeze_integrator (CS inp)))
                    + interp
                        (Spec.error (desired_curvature inp) ac (vEgo (CS inp)))
                        [- FRICTION_THRESHOLD; FRICTION_THRESHOLD]
                        [- friction self1; friction self1])
              <= 1 + Qabs (friction self1)).
    { pose proof Hb as Hb'. apply Qabs_Qle_condition in Hb'.
      set (po := fst (PID.update _ _ _ _ _ _)) in *.
      set (b := interp _ _ _) in *.
      set (fr := Qabs (friction self1)) in *.
      clearbody po b fr. lra. }
    rewrite (update_active_eq _ _ _ _ Hsel Ht Hac) in H. cbv zeta in H.
    injection H as <- <-.
    exists self1. split; [exact Ht |]. split; [reflexivity |].
    split; [intros Hf; discriminate Hf |].
    split.
    + intros _. exists ac. split; [exact Hac |]. cbv zeta.
      split; [reflexivity |]. split; [exact Hpo | exact Hb].
    + exact Hint.
Qed.

Lemma inactive_iff (inp : Inputs) :
  inactive inp = true <->
  vEgo (CS inp) < MIN_STEER_SPEED \/ active inp = false.
Proof.
  unfold inactive. rewrite orb_true_iff, Qltb_true, negb_true_iff. tauto.
Qed.

Lemma active_iff (inp : Inputs) :
  inactive inp = false <->
  MIN_STEER_SPEED <= vEgo (CS inp) /\ active inp = true.
Proof.
  unfold inactive. rewrite orb_false_iff, Qltb_false, negb_false_iff. tauto.
Qed.

Lemma tuning_step_no_apply (self : t) (inp : Inputs) :
  tune_applies self inp = false ->
  exists self1,
    tuning_step self inp = inr self1 /\
    pid self1 = pid self /\
    use_steering_angle self1 = use_steering_angle self /\
    friction self1 = friction self.
Proof.
  unfold tune_applies, tuning_step, live_tune.
  destruct (custom_tune (poll_custom_tune self (store inp))); simpl.
  - intros ->. eexists. split; [reflexivity |]. simpl. auto.
  - intros _. eexists. split; [reflexivity |]. simpl. auto.
Qed.

(** C2, as amended.  When the speed is below MIN_STEER_SPEED or the
    controller is not active, a completed cycle returns the torque
    command 0 and a diagnostic record that is blank but for its active
    flag, which is false; the PID's update is not called: the controller
    is left as the tuning step of the cycle left it.  When live tuning
    does not apply in the cycle, the cycle completes and the closed-loop
    controller is the one before the cycle. *)
Theorem update_inactive_bypass (self : t) (inp : Inputs) :
  vEgo (CS inp) < MIN_STEER_SPEED \/ active inp = false ->
  (forall out self',
      update self inp = inr (out, self') ->
      torque_cmd out == 0 /\
      angle_cmd out == 0 /\
      LateralTorqueState.active (pid_log out) = false /\
      pid_log out =
        LateralTorqueState.set_active false LateralTorqueState.new_message /\
      tuning_step self inp = inr self') /\
  (tune_applies self inp = false ->
   exists out self',
     update self inp = inr (out, self') /\ pid self' = pid self).
Proof.
  intros Hsel. apply inactive_iff in Hsel. split.
  - intros out self' H. rewrite update_inactive_eq in H by assumption.
    invert_bind H. inversion H; subst; clear H.
    unfold torque_cmd, angle_cmd, pid_log; simpl.
    repeat split; try reflexivity. assumption.
  - intros Hno. destruct (tuning_step_no_apply _ _ Hno) as (s1 & Ht & Hpid & _).
    rewrite update_inactive_eq by assumption. rewrite Ht. simpl.
    eexists; eexists. split; [reflexivity | exact Hpid].
Qed.

(** C4.  In the Active state the cycle forms the error and the
    feedforward as the specification says and hands exactly these to the
    PID's update; the low-speed factor is the interpolation of the speed
    over [0, 15] -> [500, 0], clamped at the ends. *)
Theorem update_active_error_feedforward
    (self self' : t) (inp : Inputs) (out : output) :
  MIN_STEER_SPEED <= vEgo (CS inp) /\ active inp = true ->
  update self inp = inr (out, self') ->
  exists self1 curvature,
    tuning_step self inp = inr self1 /\
    actual_curvature self1 inp = inr curvature /\
    let speed := vEgo (CS inp) in
    let low_speed_factor := interp speed [0; 15] [500; 0] in
    let setpoint :=
      desired_curvature inp * speed ^ 2
      + low_speed_factor * desired_curvature inp in
    let measurement :=
      curvature * speed ^ 2 + low_speed_factor * curvature in
    let error := setpoint - measurement in
    let feedforward :=
      desired_curvature inp * speed ^ 2
      - roll (params inp) * ACCELERATION_DUE_TO_GRAVITY in
    let freeze :=
      steeringRateLimited (CS inp) || steeringPressed (CS inp) || Qltb speed 5 in
    pid self' =
      snd (PID.update cycle_period (pid self1) error feedforward speed freeze) /\
    LateralTorqueState.error (pid_log out) = error /\
    (speed <= 0 -> low_speed_factor == 500) /\
    (0 <= speed <= 15 -> low_speed_factor == 500 - speed / 15 * 500) /\
    (15 <= speed -> low_speed_factor == 0).
Proof.
  intros Hsel H. apply active_iff in Hsel.
  destruct (update_active_inv _ _ _ _ Hsel H) as (self1 & ac & Ht & Hac).
  exists self1, ac. split; [exact Ht |]. split; [exact Hac |].
  rewrite (update_active_eq _ _ _ _ Hsel Ht Hac) in H.
  inversion H; subst; clear H. unfold pid_log; simpl pid; simpl snd.
  split; [reflexivity |]. split; [reflexivity |]. repeat split.
  - intros Hv. apply interp2_low, Hv.
  - intros Hv. rewrite interp2_mid by (try reflexivity; exact Hv). field.
  - intros Hv. apply interp2_high; [reflexivity | exact Hv].
Qed.

(** C5.  With use_steering_angle set, the curvature used is the negated
    curvature of the vehicle model.  Otherwise it blends that curvature
    with yaw_rate / speed over the speeds [2, 5]: the model's curvature up
    to 2.0, the yaw-rate curvature from 5.0 on, and linear in the speed in
    between.  This is the curvature that the Active cycle measures its
    error against. *)
Theorem actual_curvature_blend (self : t) (inp : Inputs) :
  let speed := vEgo (CS inp) in
  let model := Spec.model_curvature inp in
  (use_steering_angle self = true ->
   actual_curvature self inp = inr model) /\
  (use_steering_angle self = false ->
   forall yaw_rate,
     nth_error (angularVelocityCalibrated_value (llk inp)) 2 = Some yaw_rate ->
     ~ speed == 0 ->
     exists curvature,
       actual_curvature self inp = inr curvature /\
       (speed <= 2.0 -> curvature == model) /\
       (5.0 <= speed -> curvature == yaw_rate / speed) /\
       (2.0 <= speed <= 5.0 ->
        curvature ==
        model + (speed - 2.0) / (5.0 - 2.0) * (yaw_rate / speed - model))) /\
  (forall self0 out self',
      MIN_STEER_SPEED <= speed /\ active inp = true ->
      tuning_step self0 inp = inr self ->
      update self0 inp = inr (out, self') ->
      exists curvature,
        actual_curvature self inp = inr curvature /\
        LateralTorqueState.error (pid_log out) =
          Spec.error (desired_curvature inp) curvature speed).
Proof.
  intros speed model. split; [| split].
  - unfold actual_curvature. intros ->. reflexivity.
  - unfold actual_curvature.
    intros -> yaw Hyaw Hv. unfold index. rewrite Hyaw. simpl.
    unfold speed in Hv. rewrite (fdiv_nonzero 76 yaw _ Hv). simpl.
    eexists. split; [reflexivity |]. fold speed. repeat split.
    + intros H. apply interp2_low, H.
    + intros H. apply interp2_high; [reflexivity | exact H].
    + intros H. apply interp2_mid; [reflexivity | exact H].
  - intros self0 out self' Hsel Ht H. apply active_iff in Hsel.
    destruct (update_active_inv _ _ _ _ Hsel H) as (s & ac & Hs & Hac).
    rewrite Ht in Hs. injection Hs as <-.
    exists ac. split; [exact Hac |].
    rewrite (update_active_eq _ _ _ _ Hsel Ht Hac) in H.
    injection H as <- _. reflexivity.
Qed.

Lemma friction_threshold_pos : - FRICTION_THRESHOLD < FRICTION_THRESHOLD.
Proof. reflexivity. Qed.

Lemma friction_interp_linear (fr e : Q) :
  Qabs e <= FRICTION_THRESHOLD ->
  interp e [- FRICTION_THRESHOLD; FRICTION_THRESHOLD] [- fr; fr]
  == fr * e / FRICTION_THRESHOLD.
Proof.
  intros He. apply Qabs_Qle_condition in He.
  rewrite interp2_mid by (try apply friction_threshold_pos; exact He).
  unfold FRICTION_THRESHOLD. field.
Qed.

Lemma friction_interp_positive (fr e : Q) :
  FRICTION_THRESHOLD <= Qabs e -> 0 < e ->
  interp e [- FRICTION_THRESHOLD; FRICTION_THRESHOLD] [- fr; fr] == fr.
Proof.
  intros He Hpos. rewrite Qabs_pos in He by lra.
  apply interp2_high; [apply friction_threshold_pos | exact He].
Qed.

Lemma friction_interp_negative (fr e : Q) :
  FRICTION_THRESHOLD <= Qabs e -> e < 0 ->
  interp e [- FRICTION_THRESHOLD; FRICTION_THRESHOLD] [- fr; fr] == - fr.
Proof.
  intros He Hneg. rewrite Qabs_neg in He by lra.
  apply interp2_low. lra.
Qed.

Lemma friction_interp_spec (fr e : Q) :
  interp e [- FRICTION_THRESHOLD; FRICTION_THRESHOLD] [- fr; fr]
  == Spec.friction_bias fr e.
Proof.
  unfold Spec.friction_bias, FRICTION_THRESHOLD.
  destruct (Qle_bool (Qabs e) 0.2) eqn:Habs.
  - apply Qle_bool_iff, Qabs_Qle_condition in Habs.
    rewrite interp2_mid by (try reflexivity; exact Habs). field.
  - apply Qle_bool_false in Habs.
    destruct (Qltb 0 e) eqn:Hpos.
    + apply Qltb_true in Hpos. rewrite Qabs_pos in Habs by lra.
      apply interp2_high; [reflexivity | lra].
    + apply Qltb_false in Hpos. rewrite Qabs_neg in Habs by lra.
      apply interp2_low. lra.
Qed.

(** C7.  The friction bias that the Active cycle adds to the output of
    the PID, with the friction coefficient in force at line 95 (the one
    left by the tuning step of the cycle), is friction * error / 0.2 for
    an error within the threshold 0.2, and exactly + friction (error
    positive) or - friction (error negative) for an error of magnitude
    0.2 or more; the torque command is the negated sum of the PID output
    and of this bias. *)
Theorem update_friction_bias
    (self self' : t) (inp : Inputs) (out : output) :
  MIN_STEER_SPEED <= vEgo (CS inp) /\ active inp = true ->
  update self inp = inr (out, self') ->
  exists self1 curvature,
    tuning_step self inp = inr self1 /\
    actual_curvature self1 inp = inr curvature /\
    let speed := vEgo (CS inp) in
    let error := Spec.error (desired_curvature inp) curvature speed in
    let feedforward :=
      Spec.feedforward (desired_curvature inp) speed (roll (params inp)) in
    let pid_step :=
      PID.update cycle_period (pid self1) error feedforward speed
        (Spec.freeze_integrator (CS inp)) in
    let friction_coeff := friction self1 in
    let bias :=
      interp error [- FRICTION_THRESHOLD; FRICTION_THRESHOLD]
             [- friction_coeff; friction_coeff] in
    LateralTorqueState.error (pid_log out) = error /\
    pid self' = snd pid_step /\
    friction self' = friction_coeff /\
    torque_cmd out = - (fst pid_step + bias) /\
    bias == Spec.friction_bias friction_coeff error /\
    (Qabs error <= FRICTION_THRESHOLD ->
     bias == friction_coeff * error / FRICTION_THRESHOLD) /\
    (FRICTION_THRESHOLD <= Qabs error -> 0 < error -> bias == friction_coeff) /\
    (FRICTION_THRESHOLD <= Qabs error -> error < 0 -> bias == - friction_coeff).
Proof.
  intros Hsel H. apply active_iff in Hsel.
  destruct (update_active_inv _ _ _ _ Hsel H) as (self1 & ac & Ht & Hac).
  exists self1, ac. split; [exact Ht |]. split; [exact Hac |].
  rewrite (update_active_eq _ _ _ _ Hsel Ht Hac) in H. cbv zeta in H.
  injection H as <- <-. cbv zeta.
  split; [reflexivity |]. split; [reflexivity |]. split; [reflexivity |].
  split; [reflexivity |].
  split; [apply friction_interp_spec |]. repeat split.
  - apply friction_interp_linear.
  - apply friction_interp_positive.
  - apply friction_interp_negative.
Qed.


(** C9.  The division yaw_rate / vEgo of line 76 is evaluated only past
    the activation test, where MIN_STEER_SPEED <= vEgo and active holds;
    with a positive MIN_STEER_SPEED its denominator is not zero there,
    and no cycle raises the ZeroDivisionError of that line. *)
Theorem llk_division_never_by_zero (self : t) (inp : Inputs) :
  0 < MIN_STEER_SPEED ->
  (inactive inp = false ->
   MIN_STEER_SPEED <= vEgo (CS inp) /\ active inp = true /\
   ~ vEgo (CS inp) == 0 /\
   forall yaw_rate,
     fdiv 76 yaw_rate (vEgo (CS inp)) = inr (yaw_rate / vEgo (CS inp))) /\
  (inactive inp = true ->
   update self inp =
   (self1 <- tuning_step self inp ;;
    ret ((- 0.0, 0.0,
          LateralTorqueState.set_active false LateralTorqueState.new_message),
         self1))) /\
  update self inp <> inl (ZeroDivisionError 76).
Proof.
  intros Hmin.
  assert (Hlive : forall s st cp, live_tune s st cp <> inl (ZeroDivisionError 76)).
  { intros s st cp. unfold live_tune, decimal, fdiv.
    destruct ((mpc_frame s + 1) mod 300 =? 0)%Z; [| discriminate].
    destruct (get_decimal st "TorqueMaxLatAccel"); [| discriminate]. simpl.
    destruct (get_decimal st "TorqueFriction"); [| discriminate]. simpl.
    destruct (Qeq_bool (q * 0.1) 0); discriminate. }
  assert (Htune : tuning_step self inp <> inl (ZeroDivisionError 76)).
  { unfold tuning_step.
    destruct (custom_tune (poll_custom_tune self (store inp)));
      [apply Hlive | discriminate]. }
  assert (Hact : inactive inp = false ->
                 MIN_STEER_SPEED <= vEgo (CS inp) /\ active inp = true /\
                 ~ vEgo (CS inp) == 0).
  { intros Hsel. apply active_iff in Hsel. destruct Hsel as [Hv Ha].
    repeat split; try assumption. intros Hz. lra. }
  split; [| split].
  - intros Hsel. destruct (Hact Hsel) as (Hv & Ha & Hnz).
    repeat split; try assumption.
    intros yaw. apply fdiv_nonzero, Hnz.
  - apply update_inactive_eq.
  - unfold update.
    destruct (tuning_step self inp) as [e | self1] eqn:Ht; simpl.
    + intros Heq. apply Htune. injection Heq as ->. reflexivity.
    + destruct (inactive inp) eqn:Hsel; [discriminate |].
      destruct (Hact eq_refl) as (_ & _ & Hnz).
      unfold actual_curvature.
      destruct (use_steering_angle self1); [discriminate |].
      unfold index.
      destruct (nth_error (angularVelocityCalibrated_value (llk inp)) 2);
        [| discriminate].
      simpl. rewrite (fdiv_nonzero 76 _ _ Hnz). discriminate.
Qed.

(** C10.  Two cycles from the same controller whose inputs differ only
    in desired_curvature_rate return the same torque command, angle
    command and diagnostic record and leave the same controller (or
    raise the same exception): the rate only feeds desired_lateral_jerk,
    which nothing reads. *)
Theorem update_ignores_desired_curvature_rate
    (self : t) (inp : Inputs) (rate1 rate2 : Q) :
  update self (set_desired_curvature_rate rate1 inp) =
  update self (set_desired_curvature_rate rate2 inp).
Proof.
  reflexivity.
Qed.

Lemma mod_300_zero_iff (n : Z) :
  (0 <= n < 300)%Z -> (((n + 1) mod 300 =? 0)%Z = true <-> n = 299%Z).
Proof.
  intros Hn. rewrite Z.eqb_eq. split.
  - intros Hm. destruct (Z.eq_dec n 299) as [| Hne]; [assumption |].
    rewrite Z.mod_small in Hm by lia. lia.
  - intros ->. reflexivity.
Qed.

Lemma live_tune_skip (self : t) (st : ParamsStore) (cp : CarParams) :
  (0 <= mpc_frame self < 300)%Z -> mpc_frame self <> 299%Z ->
  exists self', live_tune self st cp = inr self' /\
    mpc_frame self' = (mpc_frame self + 1)%Z /\
    pid self' = pid self /\
    use_steering_angle self' = use_steering_angle self /\
    friction self' = friction self /\
    custom_tune self' = custom_tune self /\
    custom_tune_timer self' = custom_tune_timer self.
Proof.
  intros Hn Hne. unfold live_tune.
  destruct ((mpc_frame self + 1) mod 300 =? 0)%Z eqn:Hm.
  - apply mod_300_zero_iff in Hm; [contradiction | assumption].
  - eexists. split; [reflexivity |]. simpl. repeat split.
Qed.

Lemma live_tune_apply (self : t) (st : ParamsStore) (cp : CarParams)
    (accel fric : Q) :
  mpc_frame self = 299%Z ->
  get_decimal st "TorqueMaxLatAccel" = Some accel ->
  get_decimal st "TorqueFriction" = Some fric ->
  ~ accel == 0 ->
  exists self', live_tune self st cp = inr self' /\
    mpc_frame self' = 0%Z /\
    pid self' =
      PID.PIDController (2.0 / (accel * 0.1)) (1.0 / (accel * 0.1))
        (0.5 / (accel * 0.1)) 1.0 (- 1.0) /\
    use_steering_angle self' = get_bool st "TorqueUseSteeringAngle" /\
    friction self' = fric * 0.01 /\
    custom_tune self' = custom_tune self /\
    custom_tune_timer self' = custom_tune_timer self.
Proof.
  intros Hn Ha Hf Hnz. unfold live_tune. rewrite Hn, Ha, Hf. simpl.
  assert (Hnz' : ~ accel * 0.1 == 0).
  { intros Hz. apply Hnz. lra. }
  rewrite !(fdiv_nonzero _ _ _ Hnz'). simpl.
  eexists. split; [reflexivity |]. simpl. repeat split.
Qed.

(** C6.  Whenever custom tuning is enabled (after the poll of the
    cycle), the tuning step is [live_tune] and the apply-counter advances
    by one; it runs from 0 to 299, and the step that takes it to 300
    reads the stored values, scales them by 0.1 and 0.01, installs a
    fresh PID with the gains 2.0, 1.0 and 0.5 over max_lat_accel and
    the limits 1.0 and -1.0 (its integral accumulator is 0), sets
    use_steering_angle and friction, and puts the counter back to 0.  In
    every other cycle no tuning field changes. *)
Theorem live_tune_every_300_cycles (self : t) (inp : Inputs) :
  reachable self ->
  let self1 := poll_custom_tune self (store inp) in
  (0 <= mpc_frame self < 300)%Z /\
  (custom_tune self1 = true ->
   tuning_step self inp = live_tune self1 (store inp) (CP inp) /\
   (mpc_frame self <> 299%Z ->
    exists self2,
      tuning_step self inp = inr self2 /\
      mpc_frame self2 = (mpc_frame self + 1)%Z /\
      tuning self2 = tuning self /\
      pid self2 = pid self) /\
   (mpc_frame self = 299%Z ->
    forall accel fric,
      get_decimal (store inp) "TorqueMaxLatAccel" = Some accel ->
      get_decimal (store inp) "TorqueFriction" = Some fric ->
      ~ accel == 0 ->
      let max_lat_accel := accel * 0.1 in
      exists self2,
        tuning_step self inp = inr self2 /\
        mpc_frame self2 = 0%Z /\
        pid self2 =
          PID.PIDController (2.0 / max_lat_accel) (1.0 / max_lat_accel)
            (0.5 / max_lat_accel) 1.0 (- 1.0) /\
        PID.i (pid self2) = 0 /\
        use_steering_angle self2 =
          get_bool (store inp) "TorqueUseSteeringAngle" /\
        friction self2 = fric * 0.01)) /\
  (custom_tune self1 = false ->
   tuning_step self inp = inr self1 /\
   mpc_frame self1 = mpc_frame self /\
   tuning self1 = tuning self /\
   pid self1 = pid self) /\
  (forall out self',
      update self inp = inr (out, self') ->
      custom_tune self1 = false \/ mpc_frame self <> 299%Z ->
      tuning self' = tuning self).
Proof.
  intros Hreach self1.
  pose proof (Invariant.reachable_wf _ Hreach) as (_ & _ & _ & Hframe & _).
  assert (Hframe1 : mpc_frame self1 = mpc_frame self) by reflexivity.
  split; [exact Hframe |]. split; [| split].
  - intros Hct.
    assert (Hstep : tuning_step self inp = live_tune self1 (store inp) (CP inp)).
    { unfold tuning_step. fold self1. rewrite Hct. reflexivity. }
    split; [exact Hstep |]. rewrite Hstep. split.
    + intros Hne.
      destruct (live_tune_skip self1 (store inp) (CP inp))
        as (self2 & H2 & Hf & Hp & Hu & Hfr & _); try assumption.
      exists self2. repeat split; try assumption.
      unfold tuning. rewrite Hp, Hu, Hfr. reflexivity.
    + intros Heq accel fric Ha Hf Hnz max_lat_accel.
      destruct (live_tune_apply self1 (store inp) (CP inp) accel fric)
        as (self2 & H2 & Hfr0 & Hp & Hu & Hfr & _); try assumption.
      exists self2. repeat split; try assumption.
      rewrite Hp. reflexivity.
  - intros Hct. unfold tuning_step. fold self1. rewrite Hct.
    repeat split.
  - intros out self' Hupd Hno.
    assert (Hsame : exists self2,
               tuning_step self inp = inr self2 /\ tuning self2 = tuning self).
    { destruct (custom_tune self1) eqn:Hct.
      - destruct Hno as [Hno | Hne]; [discriminate |].
        destruct (live_tune_skip self1 (store inp) (CP inp))
          as (self2 & H2 & _ & Hp & Hu & Hfr & _); try assumption.
        exists self2. split.
        + unfold tuning_step. fold self1. rewrite Hct. exact H2.
        + unfold tuning. rewrite Hp, Hu, Hfr. reflexivity.
      - exists self1. split; [| reflexivity].
        unfold tuning_step. fold self1. rewrite Hct. reflexivity. }
    destruct Hsame as (self2 & Hstep & Htun). rewrite <- Htun.
    destruct (inactive inp) eqn:Hsel.
    + rewrite update_inactive_eq in Hupd by assumption.
      rewrite Hstep in Hupd. injection Hupd as _ <-. reflexivity.
    + destruct (update_active_inv _ _ _ _ Hsel Hupd) as (s & ac & Hs & Hac).
      rewrite Hstep in Hs. injection Hs as <-.
      rewrite (update_active_eq _ _ _ _ Hsel Hstep Hac) in Hupd.
      injection Hupd as _ <-. reflexivity.
Qed.

End Cycle.

(** ** The toggle poll *)

Section Poll.

Import LatControlTorque.

Context {E : Externals}.

(** The poll counter runs through 0, 1, ..., 100 and the toggle is read
    again in the cycle that finds it at 100: once in 101 cycles. *)
Lemma poll_custom_tune_step (self : t) (st : ParamsStore) :
  (0 <= custom_tune_timer self <= 100)%Z ->
  let self' := poll_custom_tune self st in
  custom_tune_timer self' = ((custom_tune_timer self + 1) mod 101)%Z /\
  (custom_tune_timer self = 100%Z ->
   custom_tune self' = get_bool st "CustomLateralTune") /\
  (custom_tune_timer self <> 100%Z -> custom_tune self' = custom_tune self).
Proof.
  intros Ht. unfold poll_custom_tune; simpl.
  destruct (Z.ltb_spec 100 (custom_tune_timer self + 1)) as [Hlt | Hge].
  - assert (Heq : custom_tune_timer self = 100%Z) by lia.
    rewrite Heq. repeat split. intros Hne. contradiction.
  - rewrite Z.mod_small by lia. repeat split. intros Heq. lia.
Qed.

Lemma update_poll_timer (self self' : t) (inp : Inputs) (out : output) :
  reachable self ->
  update self inp = inr (out, self') ->
  custom_tune_timer self' = ((custom_tune_timer self + 1) mod 101)%Z.
Proof.
  intros Hreach H.
  pose proof (Invariant.reachable_wf _ Hreach) as (_ & _ & _ & Hframe & Htimer).
  destruct (poll_custom_tune_step self (store inp) Htimer) as (Hstep & _).
  rewrite <- Hstep.
  assert (Htune : forall s, tuning_step self inp = inr s ->
                  custom_tune_timer s =
                  custom_tune_timer (poll_custom_tune self (store inp))).
  { intros s Hs. unfold tuning_step in Hs.
    destruct (custom_tune (poll_custom_tune self (store inp))).
    - unfold live_tune in Hs.
      destruct ((mpc_frame (poll_custom_tune self (store inp)) + 1) mod 300 =? 0)%Z.
      + do 5 invert_bind Hs. injection Hs as <-. reflexivity.
      + injection Hs as <-. reflexivity.
    - injection Hs as <-. reflexivity. }
  destruct (inactive inp) eqn:Hsel.
  - rewrite update_inactive_eq in H by assumption.
    invert_bind H. injection H as _ <-. apply Htune, Ha.
  - destruct (update_active_inv _ _ _ _ Hsel H) as (s & ac & Hs & Hac).
    rewrite (update_active_eq _ _ _ _ Hsel Hs Hac) in H.
    injection H as _ <-. exact (Htune s Hs).
Qed.

Lemma run_reachable (inps : list Inputs) (self self' : t) :
  reachable self -> run self inps = inr self' -> reachable self'.
Proof.
  revert self. induction inps as [| inp inps IH]; intros self Hreach H.
  - injection H as <-. exact Hreach.
  - simpl in H. invert_bind H. destruct a as [out self1].
    apply (IH self1); [| exact H].
    eapply reachable_update; eauto.
Qed.

(** While the counter has not passed 100 the toggle is not read: custom
    tuning stays off, whatever the store holds. *)
Lemma run_keeps_toggle_off (inps : list Inputs) (self self' : t) :
  custom_tune self = false ->
  (0 <= custom_tune_timer self)%Z ->
  (custom_tune_timer self + Z.of_nat (List.length inps) <= 100)%Z ->
  run self inps = inr self' ->
  custom_tune self' = false /\
  custom_tune_timer self' = (custom_tune_timer self + Z.of_nat (List.length inps))%Z.
Proof.
  revert self. induction inps as [| inp inps IH]; intros self Hoff H0 Hlen H.
  - injection H as <-. simpl. split; [assumption | lia].
  - simpl in H. invert_bind H. destruct a as [out self1]. simpl in H.
    simpl List.length in Hlen. rewrite Nat2Z.inj_succ in Hlen.
    assert (Hstep : custom_tune self1 = false /\
                    custom_tune_timer self1 = (custom_tune_timer self + 1)%Z).
    { assert (Ht : tuning_step self inp =
                   inr (poll_custom_tune self (store inp)) /\
                   custom_tune (poll_custom_tune self (store inp)) = false /\
                   custom_tune_timer (poll_custom_tune self (store inp)) =
                   (custom_tune_timer self + 1)%Z).
      { unfold tuning_step, poll_custom_tune; simpl.
        destruct (Z.ltb_spec 100 (custom_tune_timer self + 1)); [lia |].
        rewrite Hoff. repeat split. }
      destruct Ht as (Ht & Hc & Htm).
      destruct (inactive inp) eqn:Hsel.
      - rewrite update_inactive_eq in Ha by assumption.
        rewrite Ht in Ha. injection Ha as _ <-. split; assumption.
      - destruct (update_active_inv _ _ _ _ Hsel Ha) as (s & ac & Hs & Hac).
        rewrite (update_active_eq _ _ _ _ Hsel Hs Hac) in Ha.
        rewrite Ht in Hs. injection Hs as <-.
        injection Ha as _ <-. split; assumption. }
    destruct Hstep as [Hoff1 Htm1].
    destruct (IH self1 Hoff1) as [Hc Htm]; try assumption; try lia.
    split; [exact Hc |]. simpl List.length. rewrite Nat2Z.inj_succ. lia.
Qed.

(** X16.  A fresh controller does not read the toggle in its first 100
    cycles, whatever their inputs. *)
Lemma fresh_run_keeps_toggle_off (cp : CarParams) (inps : list Inputs) (self : t) :
  (List.length inps <= 100)%nat ->
  run (init cp) inps = inr self ->
  custom_tune self = false /\
  custom_tune_timer self = Z.of_nat (List.length inps).
Proof.
  intros Hlen H.
  destruct (run_keeps_toggle_off inps (init cp) self) as [Hc Ht];
    simpl; try reflexivity; try lia; try assumption.
  split; assumption.
Qed.

End Poll.

(** ** Concrete cycles *)

Section Concrete.

Import LatControlTorque Scenario.

#[local] Existing Instance externals.

(** C3, on the code.  With the toggle "CustomLateralTune" set in the
    store from the start, a freshly constructed controller has not read
    it after 100 cycles (the counter stands at 100 and custom tuning is
    still off); it reads it in cycle 101, where the counter returns to
    0.  The toggle is read once in 101 cycles, not once in 100. *)
Theorem poll_rereads_in_cycle_101 :
  (exists self,
      run (init cp) (repeat disengaged 100) = inr self /\
      custom_tune self = false /\ custom_tune_timer self = 100%Z) /\
  (exists self,
      run (init cp) (repeat disengaged 101) = inr self /\
      custom_tune self = true /\ custom_tune_timer self = 0%Z) /\
  get_bool (store disengaged) "CustomLateralTune" = true.
Proof.
  split; [| split].
  - eexists. split; [vm_compute; reflexivity |]. split; reflexivity.
  - eexists. split; [vm_compute; reflexivity |]. split; reflexivity.
  - reflexivity.
Qed.

(** C1 fails as stated: asked for a curvature of 0.01 at 20 m/s on a
    straight line, a fresh controller saturates its PID at 1.0 and adds
    the friction 0.1; the torque command is -1.1. *)
Lemma hard_left_torque_below_minus_one :
  ~ (forall out self',
        update (init cp) hard_left = inr (out, self') ->
        - (1) <= torque_cmd out <= 1).
Proof.
  intros H.
  destruct (update (init cp) hard_left) as [e | [out self']] eqn:Hupd;
    [vm_compute in Hupd; discriminate |].
  specialize (H out self' eq_refl).
  vm_compute in Hupd. injection Hupd as <- _.
  destruct H as [H _]. vm_compute in H. apply H. reflexivity.
Qed.

Lemma update_torque_within_friction_margin_witness :
  exists out self',
    update (init cp) hard_left = inr (out, self') /\
    - (1) - Qabs (friction self') <= torque_cmd out <= 1 + Qabs (friction self').
Proof.
  eassert (Hupd : update (init cp) hard_left = inr (_, _))
    by (vm_compute; reflexivity).
  destruct (update_torque_within_friction_margin (init cp) _ hard_left _
              (reachable_init cp) Hupd) as (self1 & _ & _ & _ & _ & Hbound).
  eexists; eexists. split; [exact Hupd | exact Hbound].
Defined.

(** C2 fails as stated: after 398 disengaged cycles and one engaged cycle
    the integral accumulator holds 0.0002 and the apply-counter 299; the
    next cycle, disengaged, applies the stored tuning and replaces the PID,
    whose accumulator is 0 afterwards. *)
Lemma disengaged_cycle_replaces_pid :
  ~ (forall self out self',
        run (init cp) warm_up = inr self ->
        active disengaged = false ->
        update self disengaged = inr (out, self') ->
        PID.i (pid self') == PID.i (pid self)).
Proof.
  intros H.
  eassert (Hrun : run (init cp) warm_up = inr _) by (vm_compute; reflexivity).
  match type of Hrun with
  | _ = inr ?s =>
      eassert (Hupd : update s disengaged = inr (_, _))
        by (vm_compute; reflexivity)
  end.
  specialize (H _ _ _ Hrun eq_refl Hupd).
  vm_compute in H. discriminate H.
Qed.

Lemma update_inactive_bypass_witness :
  exists out self',
    update (init cp) disengaged = inr (out, self') /\
    torque_cmd out == 0 /\
    LateralTorqueState.active (pid_log out) = false /\
    pid self' = pid (init cp).
Proof.
  destruct (update_inactive_bypass (init cp) disengaged (or_intror eq_refl))
    as [Hall Hsame].
  destruct (Hsame eq_refl) as (out & self' & Hupd & Hpid).
  destruct (Hall out self' Hupd) as (Htorque & _ & Hactive & _).
  exists out, self'. repeat split; assumption.
Defined.

Lemma update_active_error_feedforward_witness :
  exists out self' self1 ac,
    update (init cp) hard_left = inr (out, self') /\
    tuning_step (init cp) hard_left = inr self1 /\
    actual_curvature self1 hard_left = inr ac /\
    LateralTorqueState.error (pid_log out) =
      Spec.error (desired_curvature hard_left) ac (vEgo (CS hard_left)) /\
    pid self' =
      snd (PID.update cycle_period (pid self1)
             (Spec.error (desired_curvature hard_left) ac (vEgo (CS hard_left)))
             (Spec.feedforward (desired_curvature hard_left)
                (vEgo (CS hard_left)) (roll (params hard_left)))
             (vEgo (CS hard_left)) (Spec.freeze_integrator (CS hard_left))).
Proof.
  eassert (Hupd : update (init cp) hard_left = inr (_, _))
    by (vm_compute; reflexivity).
  assert (Hsel : MIN_STEER_SPEED <= vEgo (CS hard_left) /\
                  active hard_left = true)
    by (split; [vm_compute; discriminate | reflexivity]).
  destruct (update_active_error_feedforward _ _ _ _ Hsel Hupd)
    as (self1 & ac & Ht & Hac & Hrest).
  cbv zeta in Hrest. destruct Hrest as (Hpid & Herr & _).
  eexists; eexists; exists self1, ac.
  split; [exact Hupd |]. split; [exact Ht |]. split; [exact Hac |].
  split; [exact Herr | exact Hpid].
Defined.

Lemma actual_curvature_blend_witness :
  actual_curvature (init cp) slow_turn = inr (Spec.model_curvature slow_turn) /\
  exists curvature,
    actual_curvature (init cp_blend) slow_turn = inr curvature /\
    curvature == 0.01.
Proof.
  destruct (actual_curvature_blend (init cp) slow_turn) as [Hangle _].
  destruct (actual_curvature_blend (init cp_blend) slow_turn)
    as (_ & Hblend & _).
  split; [exact (Hangle eq_refl) |].
  assert (Hnz : ~ vEgo (CS slow_turn) == 0) by (vm_compute; discriminate).
  destruct (Hblend eq_refl 0 eq_refl Hnz) as (c & Hc & _ & _ & Hmid).
  exists c. split; [exact Hc |].
  rewrite Hmid by (split; vm_compute; discriminate).
  vm_compute. reflexivity.
Defined.

Lemma update_friction_bias_witness :
  exists out self' pid_output,
    update (init cp) hard_left = inr (out, self') /\
    torque_cmd out = - (pid_output + friction (init cp)) /\
    pid_output == 1.
Proof.
  eassert (Hupd : update (init cp) hard_left = inr (_, _))
    by (vm_compute; reflexivity).
  assert (Hsel : MIN_STEER_SPEED <= vEgo (CS hard_left) /\
                  active hard_left = true)
    by (split; [vm_compute; discriminate | reflexivity]).
  destruct (update_friction_bias _ _ _ _ Hsel Hupd)
    as (self1 & c & Ht & Hac & Hrest).
  cbv zeta in Hrest. destruct Hrest as (_ & _ & _ & Htorque & _).
  vm_compute in Ht. injection Ht as <-.
  vm_compute in Hac. injection Hac as <-.
  eexists; eexists; eexists.
  split; [exact Hupd |]. split; [exact Htorque |].
  vm_compute. reflexivity.
Defined.



Lemma llk_division_never_by_zero_witness :
  0 < MIN_STEER_SPEED /\
  update (init cp_blend) slow_turn <> inl (ZeroDivisionError 76).
Proof.
  assert (Hmin : 0 < MIN_STEER_SPEED) by reflexivity.
  split; [exact Hmin |].
  apply (llk_division_never_by_zero (init cp_blend) slow_turn Hmin).
Defined.

Lemma live_tune_every_300_cycles_witness :
  exists self self2,
    run (init cp) warm_up = inr self /\
    mpc_frame self = 299%Z /\
    tuning_step self disengaged = inr self2 /\
    mpc_frame self2 = 0%Z /\
    PID.k_p (pid self2) == 0.8 /\
    PID.i (pid self2) = 0 /\
    friction self2 == 0.1.
Proof.
  eassert (Hrun : run (init cp) warm_up = inr _) by (vm_compute; reflexivity).
  pose proof (run_reachable _ _ _ (reachable_init cp) Hrun) as Hreach.
  destruct (live_tune_every_300_cycles _ disengaged Hreach)
    as (_ & Hon & _ & _).
  destruct (Hon eq_refl) as (_ & _ & Happly).
  destruct (Happly eq_refl 25 10 eq_refl eq_refl) as
    (self2 & Hstep & Hframe & Hpid & Hi & _ & Hfr).
  { vm_compute. discriminate. }
  eexists; exists self2.
  split; [exact Hrun |]. split; [reflexivity |]. split; [exact Hstep |].
  split; [exact Hframe |]. split; [| split; [exact Hi |]].
  - rewrite Hpid. vm_compute. reflexivity.
  - rewrite Hfr. vm_compute. reflexivity.
Defined.

End Concrete.

(** * Further properties of the controller *)

(** ** Exceptions of a cycle *)

Section Exceptions.

Import LatControlTorque Behaviour.

Context {E : Externals}.

Lemma tune_applies_iff (self : t) (inp : Inputs) :
  tune_applies self inp = true <->
  custom_tune (poll_custom_tune self (store inp)) = true /\
  ((mpc_frame self + 1) mod 300 =? 0)%Z = true.
Proof.
  unfold tune_applies. rewrite andb_true_iff. reflexivity.
Qed.

(** The tuning step of a cycle in which [live_tune] does not apply
    touches the two counters and the toggle only. *)
Lemma tuning_step_skip (self : t) (inp : Inputs) :
  tune_applies self inp = false ->
  exists self1,
    tuning_step self inp = inr self1 /\
    pid self1 = pid self /\
    steer_max self1 = steer_max self /\
    use_steering_angle self1 = use_steering_angle self /\
    friction self1 = friction self /\
    _torque_max_lat_accel self1 = _torque_max_lat_accel self /\
    _torque_use_steering_angle self1 = _torque_use_steering_angle self /\
    _torque_friction self1 = _torque_friction self.
Proof.
  unfold tune_applies, tuning_step, live_tune.
  destruct (custom_tune (poll_custom_tune self (store inp))); simpl.
  - intros ->. eexists. split; [reflexivity |]. simpl. repeat split.
  - intros _. eexists. split; [reflexivity |]. simpl. repeat split.
Qed.

(** The tuning step of a cycle in which [live_tune] applies, on a store
    that holds what it needs. *)
Lemma tuning_step_apply (self : t) (inp : Inputs) (accel fric : Q) :
  tune_applies self inp = true ->
  get_decimal (store inp) "TorqueMaxLatAccel" = Some accel ->
  get_decimal (store inp) "TorqueFriction" = Some fric ->
  ~ accel == 0 ->
  exists self1,
    tuning_step self inp = inr self1 /\
    pid self1 =
      PID.PIDController (2.0 / (accel * 0.1)) (1.0 / (accel * 0.1))
        (0.5 / (accel * 0.1)) 1.0 (- 1.0) /\
    steer_max self1 = steer_max self /\
    use_steering_angle self1 = get_bool (store inp) "TorqueUseSteeringAngle" /\
    friction self1 = fric * 0.01 /\
    _torque_max_lat_accel self1 = Some (accel * 0.1) /\
    _torque_use_steering_angle self1 =
      Some (get_bool (store inp) "TorqueUseSteeringAngle") /\
    _torque_friction self1 = Some (fric * 0.01).
Proof.
  intros Happ Ha Hf Hnz. apply tune_applies_iff in Happ.
  destruct Happ as [Hct Hm]. unfold tuning_step. rewrite Hct.
  unfold live_tune.
  change (mpc_frame (poll_custom_tune self (store inp))) with (mpc_frame self).
  rewrite Hm, Ha, Hf. simpl.
  assert (Hnz' : ~ accel * 0.1 == 0).
  { intros Hz. apply Hnz. lra. }
  rewrite !(fdiv_nonzero _ _ _ Hnz'). simpl.
  eexists. split; [reflexivity |]. simpl. repeat split.
Qed.

Lemma update_tuning_error (self : t) (inp : Inputs) (e : exn) :
  tuning_step self inp = inl e -> update self inp = inl e.
Proof.
  intros H. unfold update. rewrite H. reflexivity.
Qed.

Lemma tuning_step_mode (self self1 : t) (inp : Inputs) :
  tuning_step self inp = inr self1 ->
  use_steering_angle self1 = steering_angle_mode self inp.
Proof.
  intros H. unfold steering_angle_mode.
  destruct (tune_applies self inp) eqn:Happ.
  - pose proof Happ as Happ'. apply tune_applies_iff in Happ'.
    destruct Happ' as [Hct Hm]. unfold tuning_step in H. rewrite Hct in H.
    unfold live_tune in H.
    change (mpc_frame (poll_custom_tune self (store inp)))
      with (mpc_frame self) in H.
    rewrite Hm in H. do 5 invert_bind H. injection H as <-. reflexivity.
  - destruct (tuning_step_skip _ _ Happ) as (s & Hs & _ & _ & Hu & _).
    rewrite Hs in H. injection H as <-. exact Hu.
Qed.

(** X1.  The cycle in which [live_tune] applies raises when the store
    does not hold what it needs, whether the controller is engaged or
    not: the exception of [Decimal] at line 49 when "TorqueMaxLatAccel"
    is not a decimal text, at line 51 when "TorqueFriction" is not, and
    a ZeroDivisionError at line 54 when the stored max-lat-accel is 0. *)
Theorem update_raises_on_bad_store (self : t) (inp : Inputs) :
  tune_applies self inp = true ->
  (get_decimal (store inp) "TorqueMaxLatAccel" = None ->
   update self inp = inl (InvalidOperation 49)) /\
  (forall accel,
      get_decimal (store inp) "TorqueMaxLatAccel" = Some accel ->
      get_decimal (store inp) "TorqueFriction" = None ->
      update self inp = inl (InvalidOperation 51)) /\
  (forall accel fric,
      get_decimal (store inp) "TorqueMaxLatAccel" = Some accel ->
      get_decimal (store inp) "TorqueFriction" = Some fric ->
      accel == 0 ->
      update self inp = inl (ZeroDivisionError 54)).
Proof.
  intros Happ. apply tune_applies_iff in Happ. destruct Happ as [Hct Hm].
  assert (Hstep : tuning_step self inp =
                  live_tune (poll_custom_tune self (store inp)) (store inp) (CP inp)).
  { unfold tuning_step. rewrite Hct. reflexivity. }
  repeat split.
  - intros Ha. apply update_tuning_error. rewrite Hstep. unfold live_tune.
    change (mpc_frame (poll_custom_tune self (store inp))) with (mpc_frame self).
    rewrite Hm, Ha. reflexivity.
  - intros accel Ha Hf. apply update_tuning_error. rewrite Hstep.
    unfold live_tune.
    change (mpc_frame (poll_custom_tune self (store inp))) with (mpc_frame self).
    rewrite Hm, Ha, Hf. reflexivity.
  - intros accel fric Ha Hf Hz. apply update_tuning_error. rewrite Hstep.
    unfold live_tune.
    change (mpc_frame (poll_custom_tune self (store inp))) with (mpc_frame self).
    rewrite Hm, Ha, Hf. simpl. unfold fdiv.
    assert (Hz' : Qeq_bool (accel * 0.1) 0 = true).
    { apply Qeq_bool_iff. rewrite Hz. reflexivity. }
    rewrite Hz'. reflexivity.
Qed.

(** X3.  An engaged cycle that blends the yaw rate in reads the third
    component of the localizer's list before it divides: it raises
    IndexError when the list is shorter, and ZeroDivisionError when the
    list is long enough and the speed is 0. *)
Theorem update_raises_on_bad_llk (self : t) (inp : Inputs) :
  (tune_applies self inp = true -> store_valid (store inp)) ->
  inactive inp = false ->
  steering_angle_mode self inp = false ->
  ((List.length (angularVelocityCalibrated_value (llk inp)) < 3)%nat ->
   update self inp = inl (IndexError 76)) /\
  ((3 <= List.length (angularVelocityCalibrated_value (llk inp)))%nat ->
   vEgo (CS inp) == 0 ->
   update self inp = inl (ZeroDivisionError 76)).
Proof.
  intros Hstore Hsel Hmode.
  assert (Hstep : exists self1, tuning_step self inp = inr self1).
  { destruct (tune_applies self inp) eqn:Happ.
    - destruct (Hstore eq_refl) as (accel & fric & Ha & Hf & Hnz).
      destruct (tuning_step_apply _ _ _ _ Happ Ha Hf Hnz) as (s & Hs & _).
      eauto.
    - destruct (tuning_step_skip _ _ Happ) as (s & Hs & _). eauto. }
  destruct Hstep as (self1 & Hstep).
  rewrite <- (tuning_step_mode _ _ _ Hstep) in Hmode.
  split.
  - intros Hlen. unfold update. rewrite Hstep. simpl. rewrite Hsel.
    unfold actual_curvature. rewrite Hmode. unfold index.
    assert (Hnone : nth_error (angularVelocityCalibrated_value (llk inp)) 2 = None)
      by (apply nth_error_None; lia).
    rewrite Hnone. reflexivity.
  - intros Hlen Hz. unfold update. rewrite Hstep. simpl. rewrite Hsel.
    unfold actual_curvature. rewrite Hmode. unfold index.
    destruct (nth_error (angularVelocityCalibrated_value (llk inp)) 2)
      as [yaw |] eqn:Hyaw.
    + simpl. unfold fdiv. apply Qeq_bool_iff in Hz. rewrite Hz. reflexivity.
    + apply nth_error_None in Hyaw. lia.
Qed.

End Exceptions.

(** ** What a cycle reads *)

Section Reads.

Import LatControlTorque Behaviour.

Context {E : Externals}.

Lemma live_tune_ignores_CP (self : t) (st : ParamsStore) (cp1 cp2 : CarParams) :
  live_tune self st cp1 = live_tune self st cp2.
Proof. reflexivity. Qed.

(** X4.  [update] never reads its argument [CP]: the tuning of the car
    enters at construction only, and [live_tune] takes [CP] without using
    it. *)
Theorem update_ignores_CP (self : t) (inp : Inputs) (cp1 cp2 : CarParams) :
  update self (set_CP cp1 inp) = update self (set_CP cp2 inp).
Proof.
  reflexivity.
Qed.

(** X5.  What a disengaged or too slow cycle returns, and the controller
    it leaves, depend on the content of the store only: two such cycles
    from the same controller with the same store agree, whatever the car
    state, the vehicle model, the desired curvature and the localizer
    say. *)
Theorem update_inactive_reads_store_only (self : t) (inp1 inp2 : Inputs) :
  inactive inp1 = true ->
  inactive inp2 = true ->
  store inp1 = store inp2 ->
  update self inp1 = update self inp2.
Proof.
  intros H1 H2 Hst.
  rewrite !update_inactive_eq by assumption.
  unfold tuning_step. rewrite Hst.
  rewrite (live_tune_ignores_CP _ _ (CP inp1) (CP inp2)). reflexivity.
Qed.

(** X6.  With the steering-angle mode in force in the cycle, the
    localizer's estimate is not read: the cycle returns the same, and
    never raises on a short list. *)
Theorem update_steering_angle_ignores_llk
    (self : t) (inp : Inputs) (l1 l2 : LiveLocationKalman) :
  steering_angle_mode self inp = true ->
  update self (set_llk l1 inp) = update self (set_llk l2 inp).
Proof.
  intros Hmode. unfold update.
  change (tuning_step self (set_llk l1 inp)) with (tuning_step self inp).
  change (tuning_step self (set_llk l2 inp)) with (tuning_step self inp).
  destruct (tuning_step self inp) as [e | self1] eqn:Hstep; [reflexivity |].
  simpl bind.
  change (inactive (set_llk l1 inp)) with (inactive inp).
  change (inactive (set_llk l2 inp)) with (inactive inp).
  destruct (inactive inp); [reflexivity |].
  rewrite <- (tuning_step_mode _ _ _ Hstep) in Hmode.
  unfold actual_curvature. rewrite Hmode. reflexivity.
Qed.

(** X7.  The store is read in two kinds of cycles only: the one that
    finds the poll counter at 100, and, with custom tuning on, the one
    that takes the apply-counter to a multiple of 300.  In every other
    cycle its content does not matter. *)
Theorem update_reads_store_on_schedule
    (self : t) (inp : Inputs) (st1 st2 : ParamsStore) :
  (custom_tune_timer self < 100)%Z ->
  custom_tune self = false \/ ((mpc_frame self + 1) mod 300 <> 0)%Z ->
  update self (set_store st1 inp) = update self (set_store st2 inp).
Proof.
  intros Htimer Hframe.
  assert (Hstep : forall st,
             tuning_step self (set_store st inp) =
             tuning_step self (set_store st1 inp)).
  { intros st. unfold tuning_step, poll_custom_tune. simpl.
    destruct (Z.ltb_spec 100 (custom_tune_timer self + 1)) as [Hlt | _];
      [lia |].
    destruct (custom_tune self) eqn:Hct; [| reflexivity].
    destruct Hframe as [Hoff | Hne]; [discriminate |].
    unfold live_tune. simpl.
    destruct (Z.eqb_spec ((mpc_frame self + 1) mod 300) 0) as [Hm | _];
      [contradiction |].
    reflexivity. }
  unfold update. rewrite (Hstep st2). reflexivity.
Qed.

End Reads.

(** ** Runs of cycles *)

Section Runs.

Import LatControlTorque Behaviour.

Context {E : Externals}.

(** X8.  Over any completed run of cycles the poll counter counts
    modulo 101: after [n] cycles it stands at the old count plus [n],
    modulo 101. *)
Theorem run_poll_timer (inps : list Inputs) (self self' : t) :
  reachable self ->
  run self inps = inr self' ->
  custom_tune_timer self' =
  ((custom_tune_timer self + Z.of_nat (List.length inps)) mod 101)%Z.
Proof.
  revert self. induction inps as [| inp inps IH]; intros self Hreach H.
  - injection H as <-. simpl.
    pose proof (Invariant.reachable_wf _ Hreach) as (_ & _ & _ & _ & Ht).
    rewrite Z.add_0_r, Z.mod_small by lia. reflexivity.
  - simpl in H. invert_bind H. destruct a as [out self1]. simpl in H.
    pose proof (update_poll_timer _ _ _ _ Hreach Ha) as Hstep.
    assert (Hreach1 : reachable self1) by (eapply reachable_update; eauto).
    rewrite (IH self1 Hreach1 H), Hstep.
    simpl List.length. rewrite Nat2Z.inj_succ.
    rewrite Zplus_mod_idemp_l. f_equal. lia.
Qed.

Lemma update_without_toggle (self self' : t) (inp : Inputs) (out : output) :
  custom_tune self = false ->
  get_bool (store inp) "CustomLateralTune" = false ->
  update self inp = inr (out, self') ->
  custom_tune self' = false /\
  tuning self' = tuning self /\
  mpc_frame self' = mpc_frame self /\
  _torque_max_lat_accel self' = _torque_max_lat_accel self.
Proof.
  intros Hoff Hst H.
  assert (Hstep : tuning_step self inp = inr (poll_custom_tune self (store inp)) /\
                  custom_tune (poll_custom_tune self (store inp)) = false).
  { unfold tuning_step, poll_custom_tune; simpl. rewrite Hoff, Hst.
    destruct (100 <? custom_tune_timer self + 1)%Z; split; reflexivity. }
  destruct Hstep as [Hstep Hct].
  destruct (inactive inp) eqn:Hsel.
  - rewrite update_inactive_eq in H by assumption.
    rewrite Hstep in H. injection H as _ <-.
    split; [exact Hct |]. repeat split.
  - destruct (update_active_inv _ _ _ _ Hsel H) as (s & ac & Hs & Hac).
    rewrite (update_active_eq _ _ _ _ Hsel Hs Hac) in H.
    rewrite Hstep in Hs. injection Hs as <-.
    injection H as _ <-.
    split; [exact Hct |]. repeat split.
Qed.

(** X9.  As long as the toggle "CustomLateralTune" is off in the store,
    a controller with custom tuning off keeps its tuning: over any
    completed run the gains and limits of the PID, [use_steering_angle]
    and [friction] are those before the run, and the apply-counter does
    not move. *)
Theorem run_without_toggle_keeps_tuning (inps : list Inputs) (self self' : t) :
  custom_tune self = false ->
  Forall (fun inp => get_bool (store inp) "CustomLateralTune" = false) inps ->
  run self inps = inr self' ->
  custom_tune self' = false /\
  tuning self' = tuning self /\
  mpc_frame self' = mpc_frame self /\
  _torque_max_lat_accel self' = _torque_max_lat_accel self.
Proof.
  revert self. induction inps as [| inp inps IH]; intros self Hoff Hall H.
  - injection H as <-. repeat split. exact Hoff.
  - simpl in H. invert_bind H. destruct a as [out self1]. simpl in H.
    inversion Hall as [| ? ? Hst Hall']; subst.
    destruct (update_without_toggle _ _ _ _ Hoff Hst Ha)
      as (Hoff1 & Htun1 & Hframe1 & Hacc1).
    destruct (IH self1 Hoff1 Hall' H) as (Hoff' & Htun' & Hframe' & Hacc').
    split; [exact Hoff' |]. split; [congruence |]. split; congruence.
Qed.

Lemma tuning_step_reset (self : t) (inp : Inputs) :
  tuning_step (reset self) inp =
  match tuning_step self inp with
  | inl e => inl e
  | inr self1 => inr (reset self1)
  end.
Proof.
  unfold tuning_step.
  change (custom_tune (poll_custom_tune (reset self) (store inp)))
    with (custom_tune (poll_custom_tune self (store inp))).
  destruct (custom_tune (poll_custom_tune self (store inp))); [| reflexivity].
  unfold live_tune.
  change (mpc_frame (poll_custom_tune (reset self) (store inp)))
    with (mpc_frame (poll_custom_tune self (store inp))).
  destruct ((mpc_frame (poll_custom_tune self (store inp)) + 1) mod 300 =? 0)%Z;
    [| reflexivity].
  destruct (decimal 49 (get_decimal (store inp) "TorqueMaxLatAccel"))
    as [e | a]; [reflexivity |]. simpl.
  destruct (decimal 51 (get_decimal (store inp) "TorqueFriction"))
    as [e | fr]; [reflexivity |]. simpl.
  destruct (fdiv 54 2.0 (a * 0.1)) as [e | kp]; [reflexivity |]. simpl.
  destruct (fdiv 54 1.0 (a * 0.1)) as [e | ki]; [reflexivity |]. simpl.
  destruct (fdiv 55 0.5 (a * 0.1)) as [e | kf]; reflexivity.
Qed.

(** X10.  [reset] commutes with a disengaged or too slow cycle: the
    cycle returns the same from the reset controller, and leaves the
    reset of the controller it leaves otherwise.  In particular [reset]
    touches neither counter and no tuning. *)
Theorem update_inactive_reset
    (self self' : t) (inp : Inputs) (out : output) :
  inactive inp = true ->
  update self inp = inr (out, self') ->
  update (reset self) inp = inr (out, reset self').
Proof.
  intros Hsel H.
  rewrite update_inactive_eq in * by assumption.
  rewrite tuning_step_reset.
  destruct (tuning_step self inp) as [e | self1]; [discriminate |].
  simpl in *. injection H as <- <-. reflexivity.
Qed.

End Runs.

(** ** The diagnostic record *)

Section Diagnostics.

Import LatControlTorque Behaviour.

Context {E : Externals}.

(** X11.  In every completed cycle the angle command is 0.0 and the
    active flag of the diagnostic record tells whether the cycle was
    engaged; in an engaged cycle the record's output is the torque
    command returned, and its p, i, d and f are the terms of the PID of
    the controller left by the cycle. *)
Theorem update_diagnostic_record
    (self self' : t) (inp : Inputs) (out : output) :
  update self inp = inr (out, self') ->
  angle_cmd out = 0.0 /\
  LateralTorqueState.active (pid_log out) = negb (inactive inp) /\
  (inactive inp = false ->
   LateralTorqueState.output (pid_log out) = torque_cmd out /\
   LateralTorqueState.p (pid_log out) = PID.p (pid self') /\
   LateralTorqueState.i (pid_log out) = PID.i (pid self') /\
   LateralTorqueState.d (pid_log out) = PID.d (pid self') /\
   LateralTorqueState.f (pid_log out) = PID.f (pid self')).
Proof.
  intros H. destruct (inactive inp) eqn:Hsel.
  - rewrite update_inactive_eq in H by assumption.
    invert_bind H. injection H as <- _.
    split; [reflexivity |]. split; [reflexivity |].
    intros Hf. discriminate Hf.
  - destruct (update_active_inv _ _ _ _ Hsel H) as (s & ac & Hs & Hac).
    rewrite (update_active_eq _ _ _ _ Hsel Hs Hac) in H.
    injection H as <- <-. repeat split.
Qed.

End Diagnostics.

(** ** Invariants of the controllers a caller can hold *)

Section Invariants.

Import LatControlTorque Behaviour.

Context {E : Externals}.

(** X13.  Every controller obtained from a freshly constructed one by
    completed cycles and resets has its maximal torque and the limits of
    its PID at 1 and -1, its apply-counter between 0 and 299 and its
    poll counter between 0 and 100. *)
Theorem reachable_limits_and_counters (self : t) :
  reachable self ->
  steer_max self == 1 /\
  PID.pos_limit (pid self) == 1 /\
  PID.neg_limit (pid self) == - (1) /\
  (0 <= mpc_frame self <= 299)%Z /\
  (0 <= custom_tune_timer self <= 100)%Z.
Proof.
  intros Hreach.
  destruct (Invariant.reachable_wf _ Hreach) as (Hs & Hp & Hn & Hf & Ht).
  repeat split; try assumption; lia.
Qed.

Lemma tuning_step_consistent (self self1 : t) (inp : Inputs) :
  tuning_consistent self ->
  tuning_step self inp = inr self1 ->
  tuning_consistent self1.
Proof.
  intros Hc H.
  destruct (tune_applies self inp) eqn:Happ.
  - pose proof Happ as Happ'. apply tune_applies_iff in Happ'.
    destruct Happ' as [Hct Hm]. unfold tuning_step in H. rewrite Hct in H.
    unfold live_tune in H.
    change (mpc_frame (poll_custom_tune self (store inp)))
      with (mpc_frame self) in H.
    rewrite Hm in H.
    invert_bind H. invert_bind H.
    apply bind_inr in H. destruct H as (kp & Hkp & H).
    apply bind_inr in H. destruct H as (ki & Hki & H).
    apply bind_inr in H. destruct H as (kf & Hkf & H).
    apply fdiv_inr in Hkp, Hki, Hkf.
    destruct Hkp as [Hnz ->]. destruct Hki as [_ ->]. destruct Hkf as [_ ->].
    injection H as <-. unfold tuning_consistent. simpl. repeat split.
    exact Hnz.
  - destruct (tuning_step_skip _ _ Happ)
      as (s & Hs & Hp & _ & Hu & Hfr & Ha & Hua & Hfa).
    rewrite Hs in H. injection H as <-.
    unfold tuning_consistent in *. rewrite Hp, Hu, Hfr, Ha, Hua, Hfa.
    exact Hc.
Qed.

Lemma update_consistent (self self' : t) (inp : Inputs) (out : output) :
  tuning_consistent self ->
  update self inp = inr (out, self') ->
  tuning_consistent self'.
Proof.
  intros Hc H. destruct (inactive inp) eqn:Hsel.
  - rewrite update_inactive_eq in H by assumption.
    invert_bind H. injection H as _ <-.
    eapply tuning_step_consistent; eauto.
  - destruct (update_active_inv _ _ _ _ Hsel H) as (s & ac & Hs & Hac).
    rewrite (update_active_eq _ _ _ _ Hsel Hs Hac) in H.
    injection H as _ <-.
    pose proof (tuning_step_consistent _ _ _ Hc Hs) as Hc1.
    unfold tuning_consistent in *. exact Hc1.
Qed.

(** X14.  For every such controller the three [_torque_*] attributes
    are all absent or all present, and once present they are the tuning
    in force: the stored max-lat-accel is not zero, the three gains of
    the PID are 2.0, 1.0 and 0.5 over it, always derived together, and
    [use_steering_angle] and [friction] are the two other attributes. *)
Theorem reachable_tuning_consistent (self : t) :
  reachable self -> tuning_consistent self.
Proof.
  induction 1 as [cp | self self' inp out _ IH Hupd | self _ IH].
  - unfold tuning_consistent. simpl. split; reflexivity.
  - eapply update_consistent; eauto.
  - unfold tuning_consistent in *. exact IH.
Qed.

End Invariants.

(** ** The tuning that [live_tune] installs *)

Section Installed.

Import LatControlTorque Behaviour.

Context {E : Externals}.

(** X15.  The tuning that [live_tune] installs depends on the content
    of the store alone: two applications on the same store, from any two
    controllers, install the same PID (same gains and limits, terms at
    zero), the same [use_steering_angle] and the same [friction]. *)
Theorem live_tune_installs_from_store
    (self1 self2 self1' self2' : t) (inp1 inp2 : Inputs) :
  tune_applies self1 inp1 = true ->
  tune_applies self2 inp2 = true ->
  store inp1 = store inp2 ->
  tuning_step self1 inp1 = inr self1' ->
  tuning_step self2 inp2 = inr self2' ->
  pid self1' = pid self2' /\
  PID.i (pid self1') = 0 /\
  use_steering_angle self1' = use_steering_angle self2' /\
  friction self1' = friction self2' /\
  mpc_frame self1' = 0%Z /\ mpc_frame self2' = 0%Z.
Proof.
  intros Happ1 Happ2 Hst H1 H2.
  apply tune_applies_iff in Happ1, Happ2.
  destruct Happ1 as [Hct1 Hm1]. destruct Happ2 as [Hct2 Hm2].
  unfold tuning_step in H1, H2. rewrite Hct1 in H1. rewrite Hct2 in H2.
  unfold live_tune in H1, H2.
  change (mpc_frame (poll_custom_tune self1 (store inp1)))
    with (mpc_frame self1) in H1.
  change (mpc_frame (poll_custom_tune self2 (store inp2)))
    with (mpc_frame self2) in H2.
  rewrite Hm1 in H1. rewrite Hm2 in H2. rewrite Hst in H1.
  destruct (decimal 49 (get_decimal (store inp2) "TorqueMaxLatAccel"))
    as [e | a]; [discriminate |]. simpl in H1, H2.
  destruct (decimal 51 (get_decimal (store inp2) "TorqueFriction"))
    as [e | fr]; [discriminate |]. simpl in H1, H2.
  destruct (fdiv 54 2.0 (a * 0.1)) as [e | kp]; [discriminate |].
  simpl in H1, H2.
  destruct (fdiv 54 1.0 (a * 0.1)) as [e | ki]; [discriminate |].
  simpl in H1, H2.
  destruct (fdiv 55 0.5 (a * 0.1)) as [e | kf]; [discriminate |].
  simpl in H1, H2.
  injection H1 as <-. injection H2 as <-. simpl. repeat split.
Qed.

End Installed.

(** ** Concrete cycles at the edges *)

Section ConcreteEdges.

Import LatControlTorque Behaviour Scenario EdgeScenario.

Lemma update_raises_on_bad_store_witness :
  update (E := externals) about_to_tune (set_store empty_store disengaged)
  = inl (InvalidOperation 49) /\
  update (E := externals) about_to_tune (set_store zero_accel_store disengaged)
  = inl (ZeroDivisionError 54).
Proof.
  split.
  - apply (update_raises_on_bad_store (E := externals) about_to_tune
             (set_store empty_store disengaged) eq_refl).
    reflexivity.
  - apply (update_raises_on_bad_store (E := externals) about_to_tune
             (set_store zero_accel_store disengaged) eq_refl)
      with (accel := 0) (fric := 10); reflexivity.
Defined.

Lemma update_raises_on_bad_llk_witness :
  update (E := externals) (init cp_blend) (set_llk short_llk slow_turn)
  = inl (IndexError 76) /\
  update (E := externals_no_min) (init cp_blend) standstill
  = inl (ZeroDivisionError 76).
Proof.
  split.
  - apply (update_raises_on_bad_llk (E := externals) (init cp_blend)
             (set_llk short_llk slow_turn)).
    + intros H. vm_compute in H. discriminate H.
    + reflexivity.
    + reflexivity.
    + simpl. lia.
  - apply (update_raises_on_bad_llk (E := externals_no_min) (init cp_blend)
             standstill).
    + intros H. vm_compute in H. discriminate H.
    + reflexivity.
    + reflexivity.
    + simpl. lia.
    + reflexivity.
Defined.

Lemma update_inactive_reads_store_only_witness :
  update (E := externals) (init cp) disengaged =
  update (E := externals) (init cp) (cycle true (1 # 10) 0.02 0.01).
Proof.
  apply (update_inactive_reads_store_only (E := externals)); reflexivity.
Defined.

Lemma update_steering_angle_ignores_llk_witness :
  update (E := externals) (init cp) (set_llk short_llk hard_left) =
  update (E := externals) (init cp) (set_llk turning_llk hard_left).
Proof.
  apply (update_steering_angle_ignores_llk (E := externals)). reflexivity.
Defined.

Lemma update_reads_store_on_schedule_witness :
  update (E := externals) (init cp) (set_store empty_store hard_left) =
  update (E := externals) (init cp) (set_store tuned_store hard_left).
Proof.
  apply (update_reads_store_on_schedule (E := externals)).
  - simpl. lia.
  - left. reflexivity.
Defined.

Lemma run_poll_timer_witness :
  exists self',
    run (E := externals) (init cp) (repeat disengaged 205) = inr self' /\
    custom_tune_timer self' = 3%Z.
Proof.
  eassert (Hrun : run (E := externals) (init cp) (repeat disengaged 205) = inr _)
    by (vm_compute; reflexivity).
  eexists. split; [exact Hrun |].
  rewrite (run_poll_timer (E := externals) _ _ _ (reachable_init cp) Hrun).
  reflexivity.
Defined.

Lemma fresh_run_keeps_toggle_off_witness :
  exists self,
    run (E := externals) (init cp) (repeat hard_left 100) = inr self /\
    get_bool (store hard_left) "CustomLateralTune" = true /\
    custom_tune self = false /\ custom_tune_timer self = 100%Z.
Proof.
  eassert (Hrun : run (E := externals) (init cp) (repeat hard_left 100) = inr _)
    by (vm_compute; reflexivity).
  eexists. split; [exact Hrun |]. split; [reflexivity |].
  apply (fresh_run_keeps_toggle_off (E := externals) cp _ _) in Hrun.
  - exact Hrun.
  - rewrite repeat_length. lia.
Defined.

Lemma run_without_toggle_keeps_tuning_witness :
  exists self',
    run (E := externals) (init cp)
      (repeat (set_store plain_store hard_left) 120) = inr self' /\
    tuning self' = tuning (init cp) /\ mpc_frame self' = 0%Z.
Proof.
  eassert (Hrun : run (E := externals) (init cp)
                    (repeat (set_store plain_store hard_left) 120) = inr _)
    by (vm_compute; reflexivity).
  eexists. split; [exact Hrun |].
  assert (Hoff : Forall
                   (fun inp => get_bool (store inp) "CustomLateralTune" = false)
                   (repeat (set_store plain_store hard_left) 120)).
  { apply Forall_forall. intros x Hx. apply repeat_spec in Hx. subst x.
    reflexivity. }
  destruct (run_without_toggle_keeps_tuning (E := externals) _ (init cp) _
              eq_refl Hoff Hrun)
    as (_ & Htun & Hframe & _).
  split; [exact Htun | exact Hframe].
Defined.

Lemma update_inactive_reset_witness :
  exists self out self',
    run (E := externals) (init cp) [gentle_left] = inr self /\
    ~ PID.i (pid self) == 0 /\
    update (E := externals) self disengaged = inr (out, self') /\
    update (E := externals) (reset self) disengaged = inr (out, reset self').
Proof.
  eassert (Hrun : run (E := externals) (init cp) [gentle_left] = inr _)
    by (vm_compute; reflexivity).
  match type of Hrun with
  | _ = inr ?s =>
      eassert (Hupd : update (E := externals) s disengaged = inr (_, _))
        by (vm_compute; reflexivity)
  end.
  eexists; eexists; eexists.
  split; [exact Hrun |]. split; [vm_compute; discriminate |].
  split; [exact Hupd |].
  apply (update_inactive_reset (E := externals) _ _ disengaged _ eq_refl Hupd).
Defined.

Lemma update_diagnostic_record_witness :
  exists out self',
    update (E := externals) (init cp) hard_left = inr (out, self') /\
    angle_cmd out = 0.0 /\
    LateralTorqueState.active (pid_log out) = true /\
    LateralTorqueState.output (pid_log out) = torque_cmd out /\
    LateralTorqueState.i (pid_log out) = PID.i (pid self').
Proof.
  eassert (Hupd : update (E := externals) (init cp) hard_left = inr (_, _))
    by (vm_compute; reflexivity).
  destruct (update_diagnostic_record (E := externals) _ _ _ _ Hupd)
    as (Hangle & Hactive & Hterms).
  destruct (Hterms eq_refl) as (Hout & _ & Hi & _).
  eexists; eexists. split; [exact Hupd |].
  split; [exact Hangle |]. split; [exact Hactive |].
  split; [exact Hout | exact Hi].
Defined.

Lemma reachable_limits_and_counters_witness :
  exists self,
    run (E := externals) (init cp) warm_up = inr self /\
    steer_max self == 1 /\
    (0 <= mpc_frame self <= 299)%Z /\
    (0 <= custom_tune_timer self <= 100)%Z.
Proof.
  eassert (Hrun : run (E := externals) (init cp) warm_up = inr _)
    by (vm_compute; reflexivity).
  pose proof (run_reachable (E := externals) _ _ _ (reachable_init cp) Hrun)
    as Hreach.
  destruct (reachable_limits_and_counters (E := externals) _ Hreach)
    as (Hs & _ & _ & Hf & Ht).
  eexists. split; [exact Hrun |]. split; [exact Hs |].
  split; [exact Hf | exact Ht].
Defined.

Lemma reachable_tuning_consistent_witness :
  exists self,
    run (E := externals) (init cp) (warm_up ++ [disengaged]) = inr self /\
    _torque_max_lat_accel self = Some (25 * 0.1) /\
    tuning_consistent self.
Proof.
  eassert (Hrun : run (E := externals) (init cp) (warm_up ++ [disengaged])
                  = inr _)
    by (vm_compute; reflexivity).
  pose proof (run_reachable (E := externals) _ _ _ (reachable_init cp) Hrun)
    as Hreach.
  eexists. split; [exact Hrun |]. split; [reflexivity |].
  apply (reachable_tuning_consistent (E := externals) _ Hreach).
Defined.

Lemma live_tune_installs_from_store_witness :
  exists self1' self2',
    tuning_step about_to_tune hard_left = inr self1' /\
    tuning_step (reset about_to_tune) disengaged = inr self2' /\
    pid self1' = pid self2' /\
    friction self1' = friction self2'.
Proof.
  eassert (H1 : tuning_step about_to_tune hard_left = inr _)
    by (vm_compute; reflexivity).
  eassert (H2 : tuning_step (reset about_to_tune) disengaged = inr _)
    by (vm_compute; reflexivity).
  destruct (live_tune_installs_from_store
              about_to_tune (reset about_to_tune) _ _ hard_left disengaged
              eq_refl eq_refl eq_refl H1 H2) as (Hpid & _ & _ & Hfr & _).
  eexists; eexists. split; [exact H1 |]. split; [exact H2 |].
  split; [exact Hpid | exact Hfr].
Defined.

End ConcreteEdges.
